(** * The Virtual Room: the scene script [src/main.js] and its per-frame logic

    The script builds a fixed three.js scene once, then runs two callbacks:
    [animate] on every display refresh and the [resize] listener on every
    change of the window size.  This development embeds the script as pure
    functions over an explicit program state and proves the properties the
    specification lists for it.

    Numbers.  A JavaScript number is an IEEE-754 binary64 value.  The script is
    written once, over an interface [JSNumber] of the number operations it
    uses, and is run at two instances:
    - [binary64]: Rocq's primitive floats, the arithmetic the script really
      runs on.  [Math.sin] is left to the implementation by ECMAScript, so the
      instance takes it as an argument;
    - [exact]: the real numbers, the arithmetic the formulas of the
      specification are written in.

    The library.  three.js is not part of the repository.  Its opaque values
    (projection matrix, state of the orbit controls, WebGL context) and the
    calls that produce them are the interface [ThreeJS].

    The host.  The script registers its two callbacks and returns; the
    browser then calls them, one at a time.  A session is the script run to
    its last line followed by a list of [Event]s, each of them handled by
    the callback registered for it.

    The file [src/main.js] holds two versions of the script.  The
    specification describes the second one (lines 78-350), which is the one
    embedded here; the first one (lines 1-76) is in the module
    [FirstVariant].

    Part I is the model, Part II the properties the specification lists,
    Part III what else the script guarantees: what resizes and frames do to
    one another over a session, the settings of the renderer, the window
    without height, and how far the binary64 arithmetic carries the
    animation. *)

From Stdlib Require Import ZArith QArith Reals Lra Lia Floats.
From stdpp Require Import base list strings.

Set Warnings "-inexact-float".

(** * Part I: the model *)

(** ** Numbers *)

Class JSNumber (num : Type) := {
  lit : Q -> num;              (* a decimal literal of the source text *)
  num_add : num -> num -> num; (* a + b *)
  num_mul : num -> num -> num; (* a * b *)
  num_div : num -> num -> num; (* a / b *)
  num_neg : num -> num;        (* -a *)
  num_min : num -> num -> num; (* Math.min(a, b) *)
  num_sin : num -> num;        (* Math.sin(a) *)
  num_pi : num;                (* Math.PI *)
}.
Arguments lit {num _} _%_Q.

Declare Scope js_scope.
Delimit Scope js_scope with js.
Notation "a + b" := (num_add a b) : js_scope.
Notation "a * b" := (num_mul a b) : js_scope.
Notation "a / b" := (num_div a b) : js_scope.
Notation "- a" := (num_neg a) : js_scope.

(** *** binary64 *)

Module Binary64.

(** An integer numeral; exact below 2^53. *)
Definition of_Z (z : Z) : float :=
  match z with
  | Z0 => 0%float
  | Zpos _ => of_uint63 (Uint63.of_Z z)
  | Zneg p => (- of_uint63 (Uint63.of_Z (Zpos p)))%float
  end.

(** A decimal literal [m / 10^k] denotes the double nearest to it.  Numerator
    and denominator of every literal of the script are exact doubles, and
    binary64 division rounds to nearest, so the quotient is that double. *)
Definition literal (q : Q) : float :=
  (of_Z (Qnum q) / of_Z (Zpos (Qden q)))%float.

(** [Math.min]: NaN if an argument is NaN; -0 is below +0. *)
Definition min (a b : float) : float :=
  if is_nan a || is_nan b then nan
  else if (a <? b)%float then a
  else if (b <? a)%float then b
  else if get_sign a then a else b.

Definition PI : float := 3.141592653589793%float.

End Binary64.

Definition binary64 (sin : float -> float) : JSNumber float := {|
  lit := Binary64.literal;
  num_add := PrimFloat.add;
  num_mul := PrimFloat.mul;
  num_div := PrimFloat.div;
  num_neg := PrimFloat.opp;
  num_min := Binary64.min;
  num_sin := sin;
  num_pi := Binary64.PI;
|}.

(** *** Exact arithmetic *)

Definition exact : JSNumber R := {|
  lit := Q2R;
  num_add := Rplus;
  num_mul := Rmult;
  num_div := Rdiv;
  num_neg := Ropp;
  num_min := Rmin;
  num_sin := sin;
  num_pi := PI;
|}.

(** ** Opaque values of three.js *)

Class ThreeTypes (num : Type) := {
  Matrix4 : Type;      (* camera.projectionMatrix *)
  OrbitState : Type;   (* private state of an OrbitControls *)
  GLContext : Type;    (* private state of a WebGLRenderer *)
}.

(** ** Data model

    The attributes are the ones the script reads or writes.  What three.js
    derives from them (the local and world matrices of an object, the canvas
    buffer of the renderer) is not part of the model. *)

Section Data.
Context {num : Type} `{!JSNumber num} `{!ThreeTypes num}.
Local Open Scope js_scope.

(** [Vector3], also used for the three angles of an [Euler]. *)
Record Vector3 := mkVector3 { vx : num; vy : num; vz : num }.

(** [v.set(a, b, c)] *)
Definition vset (a b c : num) (_ : Vector3) : Vector3 := mkVector3 a b c.

(** [v.x = a], [v.y = a], [v.z = a] *)
Definition with_x (a : num) (v : Vector3) : Vector3 :=
  mkVector3 a (vy v) (vz v).
Definition with_y (a : num) (v : Vector3) : Vector3 :=
  mkVector3 (vx v) a (vz v).
Definition with_z (a : num) (v : Vector3) : Vector3 :=
  mkVector3 (vx v) (vy v) a.

(** The origin: position and rotation of a new [Object3D]. *)
Definition origin : Vector3 := mkVector3 (lit 0) (lit 0) (lit 0).

Inductive Geometry :=
| PlaneGeometry (width height : num)
| BoxGeometry (width height depth : num)
| CylinderGeometry (radiusTop radiusBottom height radialSegments : num)
| SphereGeometry (radius widthSegments heightSegments : num).

(** The parameters handed to [new MeshStandardMaterial({...})]; [None] is a
    parameter the script leaves to the library. *)
Record Material := mkMaterial {
  color : Z;
  roughness : option num;
  metalness : option num;
  envMapIntensity : option num;
  emissive : option Z;
  emissiveIntensity : option num;
}.

(** What the script sets under [light.shadow]. *)
Record Shadow := mkShadow {
  mapSize : option (num * num);
  shadow_near : option num;
  shadow_far : option num;
  shadow_left : option num;
  shadow_right : option num;
  shadow_top : option num;
  shadow_bottom : option num;
  bias : option num;
}.

Definition no_shadow : Shadow :=
  mkShadow None None None None None None None None.

Inductive Object3D :=
| AmbientLight (color : Z) (intensity : num)
| DirectionalLight (color : Z) (intensity : num)
| PointLight (color : Z) (intensity : num) (distance : option num)
| Mesh (geometry : Geometry) (material : Material).

(** A node of the scene graph.  [binding] is the [const] that holds the
    object in the script: it stands for the identity of the object. *)
Record Node := mkNode {
  binding : string;
  object : Object3D;
  position : Vector3;
  rotation : Vector3;
  castShadow : bool;
  receiveShadow : bool;
  shadow : Shadow;
}.

(** A new object: at the origin, not rotated, no shadows. *)
Definition new (name : string) (o : Object3D) : Node :=
  mkNode name o origin origin false false no_shadow.

Definition set_position (f : Vector3 -> Vector3) (n : Node) : Node :=
  mkNode (binding n) (object n) (f (position n)) (rotation n)
         (castShadow n) (receiveShadow n) (shadow n).
Definition set_rotation (f : Vector3 -> Vector3) (n : Node) : Node :=
  mkNode (binding n) (object n) (position n) (f (rotation n))
         (castShadow n) (receiveShadow n) (shadow n).
Definition set_castShadow (b : bool) (n : Node) : Node :=
  mkNode (binding n) (object n) (position n) (rotation n)
         b (receiveShadow n) (shadow n).
Definition set_receiveShadow (b : bool) (n : Node) : Node :=
  mkNode (binding n) (object n) (position n) (rotation n)
         (castShadow n) b (shadow n).
Definition set_shadow (sh : Shadow) (n : Node) : Node :=
  mkNode (binding n) (object n) (position n) (rotation n)
         (castShadow n) (receiveShadow n) sh.

Definition is_light (n : Node) : bool :=
  match object n with
  | AmbientLight _ _ | DirectionalLight _ _ | PointLight _ _ _ => true
  | Mesh _ _ => false
  end.

Definition is_named (name : string) (n : Node) : bool :=
  bool_decide (binding n = name).

(** [new THREE.Fog(color, near, far)] *)
Record Fog := mkFog { fog_color : Z; fog_near : num; fog_far : num }.

(** The scene: [scene.add(o)] appends [o] to [children]. *)
Record Scene := mkScene {
  background : Z;
  fog : option Fog;
  children : list Node;
}.

Definition scene_add (n : Node) (sc : Scene) : Scene :=
  mkScene (background sc) (fog sc) (children sc ++ [n]).

(** The number of objects of the scene that satisfy [p]. *)
Definition count (p : Node -> bool) (sc : Scene) : nat :=
  length (filter (fun n => p n = true) (children sc)).

(** The objects of a scene held by the binding [name]. *)
Definition named (name : string) (sc : Scene) : list Node :=
  filter (fun n => is_named name n = true) (children sc).

(** The light sources of a scene. *)
Definition lights (sc : Scene) : list Node :=
  filter (fun n => is_light n = true) (children sc).

(** An update of objects of the scene in place. *)
Definition set_children (f : list Node -> list Node) (sc : Scene) : Scene :=
  mkScene (background sc) (fog sc) (f (children sc)).

Record Camera := mkCamera {
  fov : num;
  aspect : num;
  near : num;
  far : num;
  camera_position : Vector3;
  projectionMatrix : Matrix4;
}.

Inductive ShadowMapType := PCFSoftShadowMap.
Inductive ColorSpace := SRGBColorSpace.
Inductive ToneMapping := ACESFilmicToneMapping.

Record Renderer := mkRenderer {
  antialias : bool;
  alpha : bool;
  size : num * num;               (* setSize(width, height) *)
  pixelRatio : num;
  useLegacyLights : bool;
  shadowMap_enabled : bool;
  shadowMap_type : ShadowMapType;
  outputColorSpace : ColorSpace;
  toneMapping : ToneMapping;
  toneMappingExposure : num;
  gl : GLContext;
}.

Record Controls := mkControls {
  enableDamping : bool;
  dampingFactor : num;
  minPolarAngle : num;
  maxPolarAngle : num;
  minDistance : num;
  maxDistance : num;
  target : Vector3;
  enablePan : bool;
  orbit : OrbitState;
}.

(** What the script reads of [window]. *)
Record Window := mkWindow {
  innerWidth : num;
  innerHeight : num;
  devicePixelRatio : num;
}.

(** The state of the program: the module-level bindings of the script. *)
Record State := mkState {
  time : num;
  scene : Scene;
  camera : Camera;
  renderer : Renderer;
  controls : Controls;
}.

End Data.

Arguments AmbientLight {num} color%_Z intensity.
Arguments DirectionalLight {num} color%_Z intensity.
Arguments PointLight {num} color%_Z intensity distance.
Arguments mkMaterial {num} color%_Z _ _ _ _ _.
Arguments mkFog {num} fog_color%_Z _ _.
Arguments mkScene {num} background%_Z _ _.

(** ** Calls into three.js *)

Class ThreeJS (num : Type) `{!JSNumber num} `{!ThreeTypes num} := {
  (* camera.updateProjectionMatrix(), from fov, aspect, near and far *)
  makePerspective : num -> num -> num -> num -> Matrix4;
  (* new OrbitControls(camera, renderer.domElement) *)
  orbit_new : Camera (num:=num) -> OrbitState;
  (* controls.update(): may move the camera and change the controls; it
     holds no reference to the scene *)
  orbit_update : Controls (num:=num) -> Camera (num:=num) ->
                 Controls (num:=num) * Camera (num:=num);
  (* new WebGLRenderer({ canvas, ... }) *)
  gl_new : GLContext;
  (* renderer.render(scene, camera): draws, and keeps its own caches *)
  gl_render : Renderer (num:=num) -> Scene (num:=num) -> Camera (num:=num) ->
              GLContext;
}.

(** ** The script *)

Section Script.
Context {num : Type} `{!JSNumber num} `{!ThreeTypes num} `{!ThreeJS num}.
Local Open Scope js_scope.

(** *** Scene setup (lines 84-90) *)

Definition empty_scene : Scene :=
  mkScene 0x1a1d28 (Some (mkFog 0x1a1d28 (lit 10) (lit 35))) [].

(** *** Camera (lines 96-102) *)

Definition new_camera (w : Window) : Camera :=
  let a := innerWidth w / innerHeight w in
  mkCamera (lit 50) a (lit 0.1) (lit 100)
           (mkVector3 (lit 8) (lit 5) (lit 10))
           (makePerspective (lit 50) a (lit 0.1) (lit 100)).

(** *** Renderer (lines 108-128) *)

Definition new_renderer (w : Window) : Renderer :=
  mkRenderer true false
             (innerWidth w, innerHeight w)
             (num_min (devicePixelRatio w) (lit 2))
             false
             true PCFSoftShadowMap
             SRGBColorSpace ACESFilmicToneMapping (lit 1.2)
             gl_new.

(** *** Controls (lines 134-152) *)

Definition new_controls (c : Camera) : Controls :=
  mkControls true (lit 0.05)
             (num_pi / lit 6) (num_pi / lit 2.2)
             (lit 5) (lit 20)
             (mkVector3 (lit 0) (lit 2) (lit 0))
             false
             (orbit_new c).

(** *** Lighting (lines 159-191) *)

Definition ambientLight : Node :=
  new "ambientLight" (AmbientLight 0xb8c5d6 (lit 0.4)).

Definition mainLight : Node :=
  set_shadow (mkShadow (Some (lit 2048, lit 2048))
                       (Some (lit 0.5)) (Some (lit 30))
                       (Some (- lit 12)) (Some (lit 12))
                       (Some (lit 12)) (Some (- lit 12))
                       (Some (- lit 0.0001))) $
  set_castShadow true $
  set_position (vset (lit 8) (lit 12) (lit 6)) $
  new "mainLight" (DirectionalLight 0xffffff (lit 2.5)).

Definition accentLight : Node :=
  set_shadow (mkShadow (Some (lit 512, lit 512))
                       None None None None None None None) $
  set_castShadow true $
  set_position (vset (- lit 4) (lit 3) (- lit 6)) $
  new "accentLight" (PointLight 0xffa366 (lit 1.5) (Some (lit 15))).

Definition rimLight : Node :=
  set_position (vset (lit 6) (lit 2) (lit 8)) $
  new "rimLight" (PointLight 0x6694cc (lit 1) (Some (lit 18))).

(** *** Room geometry (lines 198-263) *)

Definition floor : Node :=
  set_receiveShadow true $
  set_rotation (with_x (- num_pi / lit 2)) $
  new "floor" (Mesh (PlaneGeometry (lit 24) (lit 24))
                    (mkMaterial 0x2d3142 (Some (lit 0.9)) (Some (lit 0.1))
                                None None None)).

Definition backWall : Node :=
  set_receiveShadow true $
  set_position (vset (lit 0) (lit 6) (- lit 12)) $
  new "backWall" (Mesh (PlaneGeometry (lit 24) (lit 12))
                       (mkMaterial 0x383d52 (Some (lit 0.85)) (Some (lit 0.05))
                                   None None None)).

Definition leftWall : Node :=
  set_receiveShadow true $
  set_rotation (with_y (num_pi / lit 2)) $
  set_position (vset (- lit 12) (lit 6) (lit 0)) $
  new "leftWall" (Mesh (PlaneGeometry (lit 24) (lit 12))
                       (mkMaterial 0x343849 (Some (lit 0.85)) (Some (lit 0.05))
                                   None None None)).

Definition rightWall : Node :=
  set_receiveShadow true $
  set_rotation (with_y (- num_pi / lit 2)) $
  set_position (vset (lit 12) (lit 6) (lit 0)) $
  new "rightWall" (Mesh (PlaneGeometry (lit 24) (lit 12))
                        (mkMaterial 0x3a3f56 (Some (lit 0.85)) (Some (lit 0.05))
                                    None None None)).

Definition ceiling : Node :=
  set_receiveShadow true $
  set_rotation (with_x (num_pi / lit 2)) $
  set_position (with_y (lit 12)) $
  new "ceiling" (Mesh (PlaneGeometry (lit 24) (lit 24))
                      (mkMaterial 0x1f2332 (Some (lit 0.9)) (Some (lit 0.05))
                                  None None None)).

(** *** Main object (lines 269-281) *)

Definition cube : Node :=
  set_receiveShadow true $
  set_castShadow true $
  set_position (vset (lit 0) (lit 1.1) (lit 0)) $
  new "cube" (Mesh (BoxGeometry (lit 2.2) (lit 2.2) (lit 2.2))
                   (mkMaterial 0x5d7fa3 (Some (lit 0.3)) (Some (lit 0.6))
                               (Some (lit 0.8)) None None)).

(** *** Accent objects (lines 290-316) *)

Definition pedestal : Node :=
  set_receiveShadow true $
  set_castShadow true $
  set_position (with_y (lit 0.15)) $
  new "pedestal" (Mesh (CylinderGeometry (lit 1.8) (lit 2) (lit 0.3) (lit 32))
                       (mkMaterial 0x4a5166 (Some (lit 0.7)) (Some (lit 0.3))
                                   None None None)).

Definition accentSphere : Node :=
  set_castShadow true $
  set_position (vset (- lit 5) (lit 0.4) (- lit 4)) $
  new "accentSphere" (Mesh (SphereGeometry (lit 0.4) (lit 32) (lit 32))
                           (mkMaterial 0xf4a261 (Some (lit 0.2)) (Some (lit 0.8))
                                       None (Some 0xf4a261%Z)
                                       (Some (lit 0.1)))).

(** The scene after the last [scene.add] (line 316): the objects in the order
    in which the script adds them. *)
Definition built_scene : Scene :=
  scene_add accentSphere $ scene_add pedestal $ scene_add cube $
  scene_add ceiling $ scene_add rightWall $ scene_add leftWall $
  scene_add backWall $ scene_add floor $
  scene_add rimLight $ scene_add accentLight $ scene_add mainLight $
  scene_add ambientLight $ empty_scene.

(** The objects the frame updater writes to, as places in [scene.children]. *)
Definition cube_ref : nat := 9.
Definition accentSphere_ref : nat := 11.

(** The scene builder: the state when the script reaches line 318, with
    [let time = 0] (line 284). *)
Definition build (w : Window) : State :=
  let c := new_camera w in
  mkState (lit 0) built_scene c (new_renderer w) (new_controls c).

(** *** Animation loop (lines 322-338) *)

Definition animate (s : State) : State :=
  (* time += 0.005 *)
  let time := time s + lit 0.005 in
  (* cube.rotation.y = time * 0.3 *)
  let sc := set_children
              (alter (set_rotation (with_y (time * lit 0.3))) cube_ref)
              (scene s) in
  (* cube.rotation.x = Math.sin(time * 0.5) * 0.05 *)
  let sc := set_children
              (alter (set_rotation
                        (with_x (num_sin (time * lit 0.5) * lit 0.05)))
                     cube_ref)
              sc in
  (* accentSphere.position.y = 0.4 + Math.sin(time * 2) * 0.1 *)
  let sc := set_children
              (alter (set_position
                        (with_y (lit 0.4 + num_sin (time * lit 2) * lit 0.1)))
                     accentSphere_ref)
              sc in
  (* controls.update() *)
  let '(ctl, cam) := orbit_update (controls s) (camera s) in
  (* renderer.render(scene, camera) *)
  let r := renderer s in
  let r := mkRenderer (antialias r) (alpha r) (size r) (pixelRatio r)
                      (useLegacyLights r) (shadowMap_enabled r)
                      (shadowMap_type r) (outputColorSpace r) (toneMapping r)
                      (toneMappingExposure r) (gl_render r sc cam) in
  mkState time sc cam r ctl.

(** [requestAnimationFrame(animate)]: the host calls [animate] again on the
    next display refresh.  [frames n s] is the state after [n] invocations. *)
Definition frames (n : nat) (s : State) : State := Nat.iter n animate s.

(** The state after [n] invocations of the frame updater from startup. *)
Definition run (w : Window) (n : nat) : State := frames n (build w).

(** The script to its last line: it makes the first invocation itself
    (line 340). *)
Definition main (w : Window) : State := animate (build w).

(** *** Responsive resize (lines 346-350) *)

Definition resize (w : Window) (s : State) : State :=
  let c := camera s in
  (* camera.aspect = window.innerWidth / window.innerHeight *)
  let a := innerWidth w / innerHeight w in
  (* camera.updateProjectionMatrix() *)
  let c := mkCamera (fov c) a (near c) (far c) (camera_position c)
                    (makePerspective (fov c) a (near c) (far c)) in
  (* renderer.setSize(window.innerWidth, window.innerHeight) *)
  let r := renderer s in
  let r := mkRenderer (antialias r) (alpha r)
                      (innerWidth w, innerHeight w) (pixelRatio r)
                      (useLegacyLights r) (shadowMap_enabled r)
                      (shadowMap_type r) (outputColorSpace r) (toneMapping r)
                      (toneMappingExposure r) (gl r) in
  mkState (time s) (scene s) c r (controls s).

(** *** The frame updater, unfolded *)

(** The three writes of one frame at time [t]. *)
Definition posed (t : num) (l : list Node) : list Node :=
  alter (set_position (with_y (lit 0.4 + num_sin (t * lit 2) * lit 0.1)))
        accentSphere_ref
    (alter (set_rotation (with_x (num_sin (t * lit 0.5) * lit 0.05))) cube_ref
       (alter (set_rotation (with_y (t * lit 0.3))) cube_ref l)).

(** The cube and the sphere as a frame at time [t] leaves them. *)
Definition cube_at (t : num) : Node :=
  set_rotation
    (fun r => mkVector3 (num_sin (t * lit 0.5) * lit 0.05) (t * lit 0.3) (vz r))
    cube.
Definition accentSphere_at (t : num) : Node :=
  set_position
    (fun p => mkVector3 (vx p) (lit 0.4 + num_sin (t * lit 2) * lit 0.1) (vz p))
    accentSphere.

Definition children_at (t : num) : list Node :=
  [ambientLight; mainLight; accentLight; rimLight;
   floor; backWall; leftWall; rightWall; ceiling;
   cube_at t; pedestal; accentSphere_at t].

(** *** Reading the animated objects *)

(** [cube.rotation] and [accentSphere.position.y] in a state. *)
Definition cube_rotation (s : State) : option Vector3 :=
  rotation <$> children (scene s) !! cube_ref.
Definition sphere_height (s : State) : option num :=
  (fun n => vy (position n)) <$> children (scene s) !! accentSphere_ref.

End Script.

(** ** The host: display refreshes and resizes

    The script registers two callbacks and returns.  From then on the host
    runs them, one at a time, on its single thread. *)

Section Host.
Context {num : Type} `{!JSNumber num} `{!ThreeTypes num} `{!ThreeJS num}.
Local Open Scope js_scope.

(** What the host reports: a display refresh, for which it calls [animate]
    (registered with [requestAnimationFrame], line 323), or a change of the
    window, for which it calls the listener registered with
    [window.addEventListener("resize", ...)] (line 346); [w] is the window
    as the listener reads it. *)
Inductive Event :=
| Refresh
| Resized (w : Window (num:=num)).

Definition handle (e : Event) (s : State) : State :=
  match e with
  | Refresh => animate s
  | Resized w => resize w s
  end.

(** The callbacks run in the order of the events. *)
Definition dispatch (evs : list Event) (s : State) : State :=
  foldl (fun s e => handle e s) s evs.

Definition is_refresh (e : Event) : bool :=
  match e with
  | Refresh => true
  | Resized _ => false
  end.

(** The number of display refreshes among the events. *)
Definition refreshes (evs : list Event) : nat :=
  length (filter (fun e => is_refresh e = true) evs).

(** The window as the last resize reported it; [w0] if there was none. *)
Definition last_window (w0 : Window) (evs : list Event) : Window :=
  foldl (fun w e => match e with Refresh => w | Resized w' => w' end) w0 evs.

(** A session: the script runs to its last line in the window [w0], then
    the host delivers the events. *)
Definition session_state (w0 : Window) (evs : list Event) : State :=
  dispatch evs (main w0).

(** The settings of a renderer: all of it but the output size and the state
    of WebGL. *)
Definition settings (r : Renderer) :=
  (antialias r, alpha r, pixelRatio r, useLegacyLights r,
   shadowMap_enabled r, shadowMap_type r, outputColorSpace r, toneMapping r,
   toneMappingExposure r).

(** What the projection of a camera is computed from, and the projection. *)
Definition lens (c : Camera) : num * num * num * num * Matrix4 :=
  (fov c, aspect c, near c, far c, projectionMatrix c).

(** An orbit control moves and turns a perspective camera; it leaves the
    projection to the script. *)
Definition orbit_keeps_lens : Prop :=
  forall (ctl : Controls) (cam : Camera),
    lens (orbit_update ctl cam).2 = lens cam.

End Host.

(** ** The scene of the first version of the script (lines 5-60) *)

Module FirstVariant.
Section Script.
Context {num : Type} `{!JSNumber num}.
Local Open Scope js_scope.

Definition empty_scene : Scene (num:=num) := mkScene 0x202020 None [].

Definition ambientLight : Node :=
  new "ambientLight" (AmbientLight 0xffffff (lit 0.6)).

Definition pointLight : Node :=
  set_position (vset (lit 5) (lit 10) (lit 5)) $
  new "pointLight" (PointLight 0xffffff (lit 0.8) None).

Definition floor : Node :=
  set_rotation (with_x (- num_pi / lit 2)) $
  new "floor" (Mesh (PlaneGeometry (lit 20) (lit 20))
                    (mkMaterial 0x444444 None None None None None)).

Definition backWall : Node :=
  set_position (with_y (lit 5)) $
  set_position (with_z (- lit 10)) $
  new "backWall" (Mesh (PlaneGeometry (lit 20) (lit 10))
                       (mkMaterial 0x333333 None None None None None)).

Definition cube : Node :=
  set_position (with_y (lit 0.5)) $
  new "cube" (Mesh (BoxGeometry (lit 1) (lit 1) (lit 1))
                   (mkMaterial 0x00ffcc None None None None None)).

Definition built_scene : Scene :=
  scene_add cube $ scene_add backWall $ scene_add floor $
  scene_add pointLight $ scene_add ambientLight $ empty_scene.

End Script.
(** *** The rest of the first version (lines 9-27 and 63-76)

    The first version sets less of the renderer and of the controls, and its
    frame updater has no animation: it updates the controls and draws. *)

Section Loop.
Context {num : Type} `{!JSNumber num} `{!ThreeTypes num}.
Local Open Scope js_scope.

Record Renderer := mkRenderer {
  antialias : bool;
  size : num * num;
  pixelRatio : num;
  gl : GLContext;
}.

Record Controls := mkControls {
  enableDamping : bool;
  enableZoom : bool;
  enablePan : bool;
  orbit : OrbitState;
}.

Record State := mkState {
  scene : Scene (num:=num);
  camera : Camera (num:=num);
  renderer : Renderer;
  controls : Controls;
}.

(** The calls into three.js, on the values of this version. *)
Class ThreeJS := {
  makePerspective : num -> num -> num -> num -> Matrix4;
  orbit_new : Camera (num:=num) -> OrbitState;
  orbit_update : Controls -> Camera (num:=num) ->
                 Controls * Camera (num:=num);
  gl_new : GLContext;
  gl_render : Renderer -> Scene (num:=num) -> Camera (num:=num) -> GLContext;
}.

Context `{!ThreeJS}.

(** Camera (lines 9-15) *)
Definition new_camera (w : Window) : Camera :=
  let a := innerWidth w / innerHeight w in
  mkCamera (lit 75) a (lit 0.1) (lit 1000)
           (mkVector3 (lit 6) (lit 6) (lit 8))
           (makePerspective (lit 75) a (lit 0.1) (lit 1000)).

(** Renderer (lines 18-21): the pixel ratio of the display, as it is *)
Definition new_renderer (w : Window) : Renderer :=
  mkRenderer true (innerWidth w, innerHeight w) (devicePixelRatio w) gl_new.

(** Mouse controls (lines 24-27) *)
Definition new_controls (c : Camera) : Controls :=
  mkControls true true true (orbit_new c).

Definition build (w : Window) : State :=
  let c := new_camera w in
  mkState built_scene c (new_renderer w) (new_controls c).

(** Animate (lines 63-67) *)
Definition animate (s : State) : State :=
  (* controls.update() *)
  let '(ctl, cam) := orbit_update (controls s) (camera s) in
  (* renderer.render(scene, camera) *)
  let r := renderer s in
  let r := mkRenderer (antialias r) (size r) (pixelRatio r)
                      (gl_render r (scene s) cam) in
  mkState (scene s) cam r ctl.

(** The script to its last line: it makes the first invocation itself
    (line 69). *)
Definition main (w : Window) : State := animate (build w).

(** Resize (lines 72-76) *)
Definition resize (w : Window) (s : State) : State :=
  let c := camera s in
  (* camera.aspect = window.innerWidth / window.innerHeight *)
  let a := innerWidth w / innerHeight w in
  (* camera.updateProjectionMatrix() *)
  let c := mkCamera (fov c) a (near c) (far c) (camera_position c)
                    (makePerspective (fov c) a (near c) (far c)) in
  (* renderer.setSize(window.innerWidth, window.innerHeight) *)
  let r := renderer s in
  let r := mkRenderer (antialias r) (innerWidth w, innerHeight w)
                      (pixelRatio r) (gl r) in
  mkState (scene s) c r (controls s).

Definition handle (e : Event) (s : State) : State :=
  match e with
  | Refresh => animate s
  | Resized w => resize w s
  end.

Definition dispatch (evs : list Event) (s : State) : State :=
  foldl (fun s e => handle e s) s evs.

Definition session_state (w0 : Window) (evs : list Event) : State :=
  dispatch evs (main w0).

End Loop.

End FirstVariant.

(** ** A bench: the script under a three.js that draws nothing

    The stand-in keeps the four parameters of the projection in place of the
    matrix, its controls receive no pointer input and leave the camera where
    it is, and rendering has no state. *)

Definition headless_types (num : Type) : ThreeTypes num := {|
  Matrix4 := num * num * num * num;
  OrbitState := unit;
  GLContext := unit;
|}.

Definition headless {num : Type} `{!JSNumber num} :
  @ThreeJS num _ (headless_types num) := {|
  makePerspective := fun f a n r : num =>
    (f, a, n, r) : @Matrix4 num (headless_types num);
  orbit_new := fun _ => tt : @OrbitState num (headless_types num);
  orbit_update := fun ctl cam => (ctl, cam);
  gl_new := tt : @GLContext num (headless_types num);
  gl_render := fun _ _ _ => tt : @GLContext num (headless_types num);
|}.

(** A window of 1024 by 768 CSS pixels on a display of pixel ratio 1. *)
Definition desktop {num : Type} `{!JSNumber num} : Window :=
  mkWindow (lit 1024) (lit 768) (lit 1).

(** The script on the bench, in binary64 with [sin] for [Math.sin]: the state
    after [n] frames. *)
Definition bench (sin : float -> float) (n : nat) : State :=
  @run float (binary64 sin) (headless_types float) headless
       (@desktop float (binary64 sin)) n.

(** A [Math.sin] for the bench that is good near 0: the first two terms of
    the series. *)
Definition sin_near_zero (x : float) : float := (x - x * x * x / 6)%float.

(** A session on the bench, from the desktop window. *)
Definition bench_session (evs : list Event) : State :=
  @session_state float (binary64 sin_near_zero) (headless_types float)
                 headless (@desktop float (binary64 sin_near_zero)) evs.

(** ** The binary64 accumulator *)

(** The frame count as a number. *)
Definition frame_count (n : nat) : float := Binary64.of_Z (Z.of_nat n).

(** The accumulator after [n] frames. *)
Definition accumulated (n : nat) : float :=
  Nat.iter n (fun t => t + 0.005)%float 0%float.

(** What holds of the first million frames (more than four hours at 60
    frames per second) is checked by running them. *)
Definition session : Z := 1000000.

(** From time [t]: does the accumulator grow at each of the next [k] frames? *)
Fixpoint increasing_for (k : nat) (t : float) : bool :=
  match k with
  | O => true
  | S k' =>
      if (t <? t + 0.005)%float then increasing_for k' (t + 0.005)%float
      else false
  end.

(** From frame [z] at time [t]: is the accumulator within 1e-7 of
    [0.005 * frame] at each of the next [k] frames? *)
Fixpoint close_for (k : nat) (z : Z) (t : float) : bool :=
  match k with
  | O => true
  | S k' =>
      if (abs (t - 0.005 * Binary64.of_Z z) <=? 1e-7)%float
      then close_for k' (Z.succ z) (t + 0.005)%float
      else false
  end.

(** The sines of the two arguments that meet at frame 6: the doubles nearest
    to sin(0.060000000000000005) and to sin(0.06).  Elsewhere the table has
    no entry. *)
Definition sin_frame6 (x : float) : float :=
  if (x =? 0.060000000000000005)%float then 0.0599640064794446%float
  else if (x =? 0.06)%float then 0.059964006479444595%float
  else nan.

(** ** The order of the doubles

    A double is one of finitely many values.  [rank] numbers them in
    increasing order: sign, then exponent, then mantissa. *)

Module Rank.

Definition two53 : Z := 9007199254740992.

Definition code (m : positive) (e : Z) : Z := (e + 1075) * two53 + Zpos m.

Definition top : Z := 2047 * two53.

Definition rank (x : spec_float) : Z :=
  match x with
  | S754_zero _ => 0
  | S754_nan => 0
  | S754_infinity s => if s then - top else top
  | S754_finite s m e => if s then - code m e else code m e
  end.

End Rank.

(** ** The value of a double

    Every finite double, and every product of two, is a multiple of 2^-2148.
    [sval m e] is the value of the mantissa [m] at the exponent [e], counted
    in that unit. *)

Definition sval (m : positive) (e : Z) : Z := (Zpos m * 2 ^ (e + 2148))%Z.

(** The exponent of the doubles of a given magnitude ([fexp] at binary64). *)
Definition fexp64 (x : Z) : Z := Z.max (x - 53) (-1074)%Z.

(** Zero, a positive finite double, or +infinity. *)
Definition nonneg (x : spec_float) : Prop :=
  match x with
  | S754_zero _ => True
  | S754_finite false _ _ => True
  | S754_infinity false => True
  | _ => False
  end.

(** The constants of the hover: 0.1 and 0.4 have the same mantissa. *)
Definition m_tenth : positive := 7205759403792794.

Definition SF_c : spec_float := S754_finite false m_tenth (-56).
Definition SF_b : spec_float := S754_finite false m_tenth (-54).
Definition SF_lo : spec_float := S754_finite false 5404319552844595 (-54).
Definition SF_hi : spec_float := S754_finite false 4503599627370496 (-53).

(** At most a tenth in magnitude: zero, or a double of mantissa [m] and
    exponent [e] with [m * 2^e <= 0.1]. *)
Definition small (p : spec_float) : Prop :=
  match p with
  | S754_zero _ => True
  | S754_finite _ m e => (sval m e <= sval m_tenth (-56))%Z
  | _ => False
  end.

(** What rounding a positive number gives: +0, a positive double or
    +Infinity. *)
Definition rounded (r : spec_float) : Prop :=
  match r with
  | S754_zero false | S754_finite false _ _ | S754_infinity false => True
  | _ => False
  end.

(** * Part II: the proofs *)

(** ** The frame updater, step by step *)

Section Frame.
Context {num : Type} `{!JSNumber num} `{!ThreeTypes num} `{!ThreeJS num}.
Local Open Scope js_scope.

Lemma animate_time (s : State) : time (animate s) = time s + lit 0.005.
Proof. unfold animate. destruct (orbit_update _ _). reflexivity. Qed.

Lemma animate_scene (s : State) :
  scene (animate s) =
  mkScene (background (scene s)) (fog (scene s))
          (posed (time s + lit 0.005) (children (scene s))).
Proof. unfold animate. destruct (orbit_update _ _). reflexivity. Qed.

Lemma frames_S (n : nat) (s : State) :
  frames (S n) s = animate (frames n s).
Proof. reflexivity. Qed.

Lemma run_S (w : Window) (n : nat) : run w (S n) = animate (run w n).
Proof. reflexivity. Qed.

Lemma run_1 (w : Window) : run w 1 = main w.
Proof. reflexivity. Qed.

(** The accumulator is the sum of the steps, added one at a time. *)
Lemma time_frames (n : nat) (s : State) :
  time (frames n s) = Nat.iter n (fun t => t + lit 0.005) (time s).
Proof.
  induction n as [|n IH]; [reflexivity|].
  rewrite frames_S, animate_time, IH. reflexivity.
Qed.

Lemma time_run (w : Window) (n : nat) :
  time (run w n) = Nat.iter n (fun t => t + lit 0.005) (lit 0).
Proof. apply (time_frames n (build w)). Qed.

Lemma children_build (w : Window) :
  children (scene (build w)) =
  [ambientLight; mainLight; accentLight; rimLight;
   floor; backWall; leftWall; rightWall; ceiling;
   cube; pedestal; accentSphere].
Proof. reflexivity. Qed.

(** After at least one frame the scene holds the objects of startup, the cube
    and the sphere posed for the current time. *)
Lemma scene_run (w : Window) (n : nat) :
  scene (run w (S n)) =
  mkScene 0x1a1d28 (Some (mkFog 0x1a1d28 (lit 10) (lit 35)))
          (children_at (time (run w (S n)))).
Proof.
  induction n as [|n IH].
  - rewrite run_S, animate_scene, animate_time. reflexivity.
  - rewrite run_S, animate_scene, animate_time, IH. reflexivity.
Qed.

Lemma cube_rotation_run (w : Window) (n : nat) :
  let t := time (run w (S n)) in
  cube_rotation (run w (S n)) =
  Some (mkVector3 (num_sin (t * lit 0.5) * lit 0.05) (t * lit 0.3) (lit 0)).
Proof. unfold cube_rotation. rewrite scene_run. reflexivity. Qed.

Lemma sphere_height_run (w : Window) (n : nat) :
  let t := time (run w (S n)) in
  sphere_height (run w (S n)) =
  Some (lit 0.4 + num_sin (t * lit 2) * lit 0.1).
Proof. unfold sphere_height. rewrite scene_run. reflexivity. Qed.

(** The objects created at startup stay, in their places, frame after frame. *)
Lemma identities_stable (w : Window) (n : nat) :
  binding <$> children (scene (run w n)) =
  binding <$> children (scene (build w)).
Proof.
  destruct n as [|n]; [reflexivity|]. rewrite scene_run. reflexivity.
Qed.

(** C8.  One invocation of the frame updater advances the time accumulator
    by the step and writes the x and y rotation of the cube and the height of
    the accent sphere.  It leaves the set of scene nodes as it is, every
    other node untouched, and every other attribute (position, z rotation,
    material, geometry, shadow flags) of the cube and of the sphere
    unchanged; the background and the fog of the scene are unchanged too. *)
Theorem animate_frame (s : State) :
  let s' := animate s in
  let t := time s + lit 0.005 in
  time s' = t
  /\ background (scene s') = background (scene s)
  /\ fog (scene s') = fog (scene s)
  /\ length (children (scene s')) = length (children (scene s))
  /\ (forall i : nat, i <> cube_ref -> i <> accentSphere_ref ->
        children (scene s') !! i = children (scene s) !! i)
  /\ children (scene s') !! cube_ref =
       (fun c =>
          mkNode (binding c) (object c) (position c)
                 (mkVector3 (num_sin (t * lit 0.5) * lit 0.05) (t * lit 0.3)
                            (vz (rotation c)))
                 (castShadow c) (receiveShadow c) (shadow c))
       <$> children (scene s) !! cube_ref
  /\ children (scene s') !! accentSphere_ref =
       (fun c =>
          mkNode (binding c) (object c)
                 (mkVector3 (vx (position c))
                            (lit 0.4 + num_sin (t * lit 2) * lit 0.1)
                            (vz (position c)))
                 (rotation c) (castShadow c) (receiveShadow c) (shadow c))
       <$> children (scene s) !! accentSphere_ref.
Proof.
  cbv zeta. rewrite animate_time, animate_scene. cbn [background fog children].
  unfold posed. repeat split.
  - rewrite !length_alter. reflexivity.
  - intros i Hc Hs. rewrite !list_lookup_alter_ne by congruence. reflexivity.
  - rewrite list_lookup_alter_ne by discriminate.
    rewrite !list_lookup_alter_eq.
    destruct (children (scene s) !! cube_ref); reflexivity.
  - rewrite list_lookup_alter_eq.
    rewrite !list_lookup_alter_ne by discriminate.
    destruct (children (scene s) !! accentSphere_ref); reflexivity.
Qed.

End Frame.

(** ** The resize handler *)

Section Resize.
Context {num : Type} `{!JSNumber num} `{!ThreeTypes num} `{!ThreeJS num}.
Local Open Scope js_scope.

(** C4.  The resize handler is idempotent: run twice for the same window
    dimensions it leaves the state that one run leaves, and so the same
    aspect ratio, the same projection and the same output size. *)
Theorem resize_idempotent (w : Window) (s : State) :
  resize w (resize w s) = resize w s
  /\ aspect (camera (resize w (resize w s))) = aspect (camera (resize w s))
  /\ projectionMatrix (camera (resize w (resize w s)))
     = projectionMatrix (camera (resize w s))
  /\ size (renderer (resize w (resize w s))) = size (renderer (resize w s)).
Proof. repeat split. Qed.

(** C10.  The resize handler writes the aspect ratio of the camera, the
    projection computed from it, and the output size of the renderer.  The
    position, field of view, near and far planes of the camera, the controls
    with their target, the scene, the time and the other settings of the
    renderer are as before. *)
Theorem resize_frame (w : Window) (s : State) :
  let s' := resize w s in
  (aspect (camera s') = innerWidth w / innerHeight w
   /\ projectionMatrix (camera s') =
        makePerspective (fov (camera s)) (innerWidth w / innerHeight w)
                        (near (camera s)) (far (camera s))
   /\ size (renderer s') = (innerWidth w, innerHeight w))
  /\ (camera_position (camera s') = camera_position (camera s)
      /\ fov (camera s') = fov (camera s)
      /\ near (camera s') = near (camera s)
      /\ far (camera s') = far (camera s))
  /\ (controls s' = controls s /\ target (controls s') = target (controls s))
  /\ (time s' = time s /\ scene s' = scene s)
  /\ (pixelRatio (renderer s') = pixelRatio (renderer s)
      /\ toneMappingExposure (renderer s') = toneMappingExposure (renderer s)
      /\ shadowMap_enabled (renderer s') = shadowMap_enabled (renderer s)
      /\ gl (renderer s') = gl (renderer s)).
Proof. cbv zeta. repeat split. Qed.

End Resize.

(** ** The scene at startup *)

Section Startup.
Context {num : Type} `{!JSNumber num} `{!ThreeTypes num} `{!ThreeJS num}.
Local Open Scope js_scope.

(** C6.  When the scene builder has run, the scene holds exactly one ground
    plane ([floor]), one primary cube, one pedestal and one accent sphere,
    and four light sources, which is at least three.  Each is at the position
    the script gives it: the floor at the origin, the cube at (0, 1.1, 0),
    the pedestal at (0, 0.15, 0), the sphere at (-5, 0.4, -4), the ambient
    light at the origin, the main light at (8, 12, 6), the accent light at
    (-4, 3, -6) and the rim light at (6, 2, 8). *)
Theorem startup_scene (w : Window) :
  let sc := scene (build w) in
  (named "floor" sc = [floor] /\ count (is_named "floor") sc = 1%nat
   /\ position floor = mkVector3 (lit 0) (lit 0) (lit 0))
  /\ (named "cube" sc = [cube] /\ count (is_named "cube") sc = 1%nat
      /\ position cube = mkVector3 (lit 0) (lit 1.1) (lit 0))
  /\ (named "pedestal" sc = [pedestal]
      /\ count (is_named "pedestal") sc = 1%nat
      /\ position pedestal = mkVector3 (lit 0) (lit 0.15) (lit 0))
  /\ (named "accentSphere" sc = [accentSphere]
      /\ count (is_named "accentSphere") sc = 1%nat
      /\ position accentSphere = mkVector3 (- lit 5) (lit 0.4) (- lit 4))
  /\ (lights sc = [ambientLight; mainLight; accentLight; rimLight]
      /\ count is_light sc = 4%nat /\ (3 <= count is_light sc)%nat
      /\ position ambientLight = mkVector3 (lit 0) (lit 0) (lit 0)
      /\ position mainLight = mkVector3 (lit 8) (lit 12) (lit 6)
      /\ position accentLight = mkVector3 (- lit 4) (lit 3) (- lit 6)
      /\ position rimLight = mkVector3 (lit 6) (lit 2) (lit 8)).
Proof.
  cbv zeta.
  assert (Hl : count is_light (scene (build w)) = 4%nat) by reflexivity.
  rewrite Hl. repeat split; try reflexivity. lia.
Qed.

End Startup.

(** The first version of the script built a smaller scene: two lights, and
    neither pedestal nor accent sphere. *)
Lemma first_variant_scene (num : Type) (N : JSNumber num) :
  let sc := @FirstVariant.built_scene num N in
  count is_light sc = 2%nat
  /\ named "pedestal" sc = [] /\ named "accentSphere" sc = []
  /\ binding <$> children sc
     = ["ambientLight"; "pointLight"; "floor"; "backWall"; "cube"].
Proof. repeat split. Qed.

(** C9.  The scene builder is deterministic: it reads nothing of its
    environment to build the scene graph.  Two runs, in whatever window and
    with whatever state of the library, build the same scene: the same nodes
    in the same order (four lights, floor, three walls, ceiling, cube,
    pedestal, accent sphere), with the same positions, colours and
    intensities.  The fixed parameters of the camera and the target of the
    controls are the same as well; only the aspect ratio follows the window. *)
Theorem build_deterministic
  (num : Type) (N : JSNumber num)
  (T1 T2 : ThreeTypes num) (L1 : @ThreeJS num N T1) (L2 : @ThreeJS num N T2)
  (w1 w2 : Window) :
  let s1 := @build num N T1 L1 w1 in
  let s2 := @build num N T2 L2 w2 in
  scene s1 = scene s2
  /\ children (scene s1) =
       [ambientLight; mainLight; accentLight; rimLight;
        floor; backWall; leftWall; rightWall; ceiling;
        cube; pedestal; accentSphere]
  /\ time s1 = time s2
  /\ (fov (camera s1) = fov (camera s2)
      /\ near (camera s1) = near (camera s2)
      /\ far (camera s1) = far (camera s2)
      /\ camera_position (camera s1) = camera_position (camera s2))
  /\ target (controls s1) = target (controls s2).
Proof. cbv zeta. repeat split. Qed.

(** ** The script in exact arithmetic *)

Section Exact.
#[local] Existing Instance exact.
Context `{!ThreeTypes R} `{!ThreeJS R}.
Local Open Scope R_scope.

(** A literal without a fraction is the integer it names. *)
Lemma lit_integer (z : Z) : lit (inject_Z z) = IZR z.
Proof. cbn. unfold Q2R. cbn. lra. Qed.

Lemma exact_time (w : Window) (n : nat) : time (run w n) = 0.005 * INR n.
Proof.
  rewrite time_run. induction n as [|n IH].
  - cbn. unfold Q2R. cbn. lra.
  - rewrite S_INR, Nat.iter_succ, IH. cbn. unfold Q2R. cbn. lra.
Qed.

Lemma exact_cube_rotation (w : Window) (n : nat) :
  vy <$> cube_rotation (run w n) = Some (0.005 * INR n * 0.3)
  /\ vx <$> cube_rotation (run w n) = Some (sin (0.005 * INR n * 0.5) * 0.05).
Proof.
  destruct n as [|n].
  - cbn. replace (0.005 * 0 * 0.5) with 0 by lra. rewrite sin_0.
    split; f_equal; unfold Q2R; cbn; lra.
  - rewrite cube_rotation_run, exact_time. split; reflexivity.
Qed.

Lemma exact_sphere_height (w : Window) (n : nat) :
  sphere_height (run w n) = Some (0.4 + sin (0.005 * INR n * 2) * 0.1).
Proof.
  destruct n as [|n].
  - cbn. replace (0.005 * 0 * 2) with 0 by lra. rewrite sin_0.
    f_equal. unfold Q2R. cbn. lra.
  - rewrite sphere_height_run, exact_time. cbv zeta.
    change (lit 2) with (lit (inject_Z 2)). rewrite lit_integer. reflexivity.
Qed.

(** The sine keeps the hover within a tenth of the base height. *)
Lemma hover_range (x : R) : 0.3 <= 0.4 + sin x * 0.1 <= 0.5.
Proof. pose proof (SIN_bound x) as [Hl Hu]. unfold Q2R. cbn. lra. Qed.

Lemma exact_time_increasing (w : Window) (n : nat) :
  time (run w n) < time (run w (S n)).
Proof. rewrite !exact_time, S_INR. unfold Q2R. cbn. lra. Qed.

Lemma exact_time_unbounded (w : Window) (B : R) :
  exists n : nat, B < time (run w n).
Proof.
  destruct (INR_unbounded (B * 200)) as [n Hn].
  exists n. rewrite exact_time. unfold Q2R. cbn. lra.
Qed.

End Exact.

(** ** The script in binary64 *)

Section OnBinary64.
Context (sin : float -> float).
#[local] Instance binary64_number : JSNumber float := binary64 sin.
Context `{!ThreeTypes float} `{!ThreeJS float}.
Local Open Scope float_scope.

(** The literals of the frame updater are the doubles nearest to them. *)
Lemma literals_of_animate :
  lit 0 = 0 /\ lit 0.005 = 0.005 /\ lit 0.3 = 0.3 /\ lit 0.5 = 0.5
  /\ lit 0.05 = 0.05 /\ lit 0.4 = 0.4 /\ lit 2 = 2 /\ lit 0.1 = 0.1.
Proof. repeat split. Qed.

Lemma binary64_time (w : Window) (n : nat) :
  time (run w n) = Nat.iter n (fun t => t + 0.005) 0.
Proof. exact (time_run w n). Qed.

Lemma binary64_cube_rotation (w : Window) (n : nat) :
  let t := time (run w (S n)) in
  cube_rotation (run w (S n)) =
  Some (mkVector3 (sin (t * 0.5) * 0.05) (t * 0.3) 0).
Proof. exact (cube_rotation_run w n). Qed.

Lemma binary64_sphere_height (w : Window) (n : nat) :
  let t := time (run w (S n)) in
  sphere_height (run w (S n)) = Some (0.4 + sin (t * 2) * 0.1).
Proof. exact (sphere_height_run w n). Qed.

End OnBinary64.

Lemma bench_time (sin : float -> float) (n : nat) :
  time (bench sin n) = accumulated n.
Proof. exact (binary64_time sin (@desktop float (binary64 sin)) n). Qed.

(** Two different doubles are different values. *)
Lemma float_neq (a b : float) : Leibniz.eqb a b = false -> a <> b.
Proof.
  intros Hne Heq. apply FloatAxioms.Leibniz.eqb_spec in Heq. congruence.
Qed.

Lemma Some_float_neq (a b : float) :
  Leibniz.eqb a b = false -> Some a <> Some b.
Proof.
  intros Hne Heq. apply (float_neq a b Hne).
  exact (f_equal (fun o => match o with Some x => x | None => a end) Heq).
Qed.

(** ** Rounding in binary64

    The operations of [SpecFloat], to which the axioms of the primitive
    floats reduce [+] and [*], round to nearest.  This section derives from
    their definitions what the claims need: adding a positive step to a
    non-negative sum never lowers it, and the hover of the sphere stays in
    range. *)

Section Rounding.
Local Open Scope Z_scope.

(** *** The digits of a mantissa *)

Lemma digits2_pos_size (m : positive) : digits2_pos m = Pos.size m.
Proof. induction m; cbn; congruence. Qed.

Lemma digits_upper (m : positive) : Zpos m < 2 ^ Zpos (digits2_pos m).
Proof.
  rewrite digits2_pos_size. pose proof (Pos.size_gt m) as H.
  apply Pos2Z.pos_lt_pos in H. rewrite Pos2Z.inj_pow in H. exact H.
Qed.

Lemma digits_lower (m : positive) : 2 ^ (Zpos (digits2_pos m) - 1) <= Zpos m.
Proof.
  rewrite digits2_pos_size. pose proof (Pos.size_le m) as H.
  apply Pos2Z.pos_le_pos in H. rewrite Pos2Z.inj_pow in H.
  replace (Zpos (Pos.size m)) with (Z.succ (Zpos (Pos.size m) - 1)) in H by lia.
  rewrite Z.pow_succ_r in H by lia.
  change (Z.pos m~0) with (2 * Z.pos m) in H. lia.
Qed.

(** The number of digits is the one [n] with [2^(n-1) <= m < 2^n]. *)
Lemma digits_unique (m : positive) (n : Z) :
  2 ^ (n - 1) <= Zpos m < 2 ^ n -> Zpos (digits2_pos m) = n.
Proof.
  intros [Hl Hu]. pose proof (digits_upper m) as Du. pose proof (digits_lower m) as Dl.
  set (d := Zpos (digits2_pos m)) in *.
  assert (0 < n).
  { destruct (Z.lt_trichotomy n 0) as [Hn|[Hn|Hn]];
      [rewrite (Z.pow_neg_r 2 n Hn) in Hu; lia
      |subst n; change (2 ^ 0) with 1 in Hu; lia
      |exact Hn]. }
  destruct (Z.lt_trichotomy d n) as [Hlt|[Heq|Hgt]]; [|exact Heq|].
  - assert (2 ^ d <= 2 ^ (n - 1)) by (apply Z.pow_le_mono_r; lia). lia.
  - assert (2 ^ n <= 2 ^ (d - 1)) by (apply Z.pow_le_mono_r; lia). lia.
Qed.

(** *** Shifting a mantissa left and right *)

Lemma iter_xO (m d : positive) : Zpos (Pos.iter xO m d) = Zpos m * 2 ^ Zpos d.
Proof.
  induction d as [|d IH] using Pos.peano_ind.
  - cbn. lia.
  - rewrite Pos.iter_succ, Pos2Z.inj_succ, Z.pow_succ_r by lia.
    rewrite Pos2Z.inj_xO, IH. lia.
Qed.

(** Bringing a mantissa to a lower exponent multiplies it by a power of 2. *)
Lemma shl_align_value (m : positive) (e e' : Z) :
  e' <= e ->
  Zpos (fst (shl_align m e e')) = Zpos m * 2 ^ (e - e')
  /\ snd (shl_align m e e') = e'.
Proof.
  intros H. unfold shl_align.
  destruct (e' - e) as [|d|d] eqn:Hd; cbn [fst snd].
  - assert (e = e') by lia. subst. rewrite Z.sub_diag. cbn. lia.
  - lia.
  - rewrite iter_xO. replace (e - e') with (Zpos d) by lia. split; reflexivity.
Qed.

Lemma shr_1_m (s : shr_record) : 0 <= shr_m s -> shr_m (shr_1 s) = shr_m s / 2.
Proof.
  destruct s as [m r st]. cbn. intros H.
  destruct m as [|[p|p|]|p]; cbn; try lia; try reflexivity.
  - change (Z.pos p~1) with (2 * Z.pos p + 1). apply Z.div_unique with 1; lia.
  - change (Z.pos p~0) with (2 * Z.pos p). apply Z.div_unique with 0; lia.
Qed.

Lemma shr_1_nonneg (s : shr_record) : 0 <= shr_m s -> 0 <= shr_m (shr_1 s).
Proof. intros H. rewrite shr_1_m by exact H. apply Z.div_pos; lia. Qed.

Lemma pow2_double (x : Z) : 0 <= x -> 2 ^ (2 * x) = 2 ^ x * 2 ^ x.
Proof. intros H. replace (2 * x) with (x + x) by lia. apply Z.pow_add_r; lia. Qed.

(** [p] shifts to the right divide the mantissa by [2^p]. *)
Lemma iter_shr_m (p : positive) (s : shr_record) :
  0 <= shr_m s ->
  shr_m (SpecFloat.iter_pos shr_1 p s) = shr_m s / 2 ^ Zpos p
  /\ 0 <= shr_m (SpecFloat.iter_pos shr_1 p s).
Proof.
  revert s. induction p as [p IH|p IH|]; intros s Hs; cbn [SpecFloat.iter_pos].
  - pose proof (shr_1_nonneg s Hs) as H1.
    destruct (IH (shr_1 s) H1) as [E1 N1].
    destruct (IH _ N1) as [E2 N2]. split; [|exact N2].
    rewrite E2, E1, shr_1_m by exact Hs.
    pose proof (Z.pow_pos_nonneg 2 (Zpos p) ltac:(lia) ltac:(lia)) as Hp.
    rewrite !Z.div_div by lia. f_equal.
    change (Z.pos p~1) with (2 * Z.pos p + 1).
    rewrite Z.pow_add_r, pow2_double by lia. change (2 ^ 1) with 2. lia.
  - destruct (IH s Hs) as [E1 N1].
    destruct (IH _ N1) as [E2 N2]. split; [|exact N2].
    rewrite E2, E1.
    pose proof (Z.pow_pos_nonneg 2 (Zpos p) ltac:(lia) ltac:(lia)) as Hp.
    rewrite !Z.div_div by lia. f_equal.
    change (Z.pos p~0) with (2 * Z.pos p). rewrite pow2_double by lia. lia.
  - split; [|apply shr_1_nonneg, Hs]. rewrite shr_1_m by exact Hs. reflexivity.
Qed.

Lemma shr_1_r (s : shr_record) :
  0 <= shr_m s -> shr_r (shr_1 s) = Z.odd (shr_m s).
Proof.
  destruct s as [m r st]. cbn. intros H.
  destruct m as [|[p|p|]|p]; try reflexivity. lia.
Qed.

(** After [p] shifts the round bit is digit [p - 1] of the mantissa. *)
Lemma iter_shr_r (p : positive) (s : shr_record) :
  0 <= shr_m s ->
  shr_r (SpecFloat.iter_pos shr_1 p s) = Z.testbit (shr_m s) (Zpos p - 1).
Proof.
  revert s. induction p as [p IH|p IH|]; intros s Hs; cbn [SpecFloat.iter_pos].
  - pose proof (shr_1_nonneg s Hs) as H1.
    destruct (iter_shr_m p (shr_1 s) H1) as [E1 N1].
    rewrite (IH _ N1), E1, shr_1_m by exact Hs.
    rewrite Z.div_pow2_bits by lia.
    change 2 with (2 ^ 1) at 1. rewrite Z.div_pow2_bits by lia.
    f_equal. lia.
  - destruct (iter_shr_m p s Hs) as [E1 N1].
    rewrite (IH _ N1), E1. rewrite Z.div_pow2_bits by lia. f_equal. lia.
  - rewrite shr_1_r by exact Hs. symmetry. apply Z.bit0_odd.
Qed.

(** The bit below the cut tells on which side of the middle the number is. *)
Lemma bit_below_cut (m k : Z) :
  0 <= m -> 0 < k ->
  let q := m / 2 ^ k in
  if Z.testbit m (k - 1) then (2 * q + 1) * 2 ^ k <= 2 * m
  else 2 * m < (2 * q + 1) * 2 ^ k.
Proof.
  intros Hm Hk q.
  pose proof (Z.pow_pos_nonneg 2 (k - 1) ltac:(lia) ltac:(lia)) as Hh.
  assert (H2k : 2 ^ k = 2 * 2 ^ (k - 1)).
  { rewrite <- Z.pow_succ_r by lia. f_equal. lia. }
  set (h := 2 ^ (k - 1)) in *.
  assert (Hq : q = (m / h) / 2).
  { unfold q. rewrite H2k, (Z.mul_comm 2 h), <- Z.div_div by lia. reflexivity. }
  pose proof (Z.div_mod m h ltac:(lia)) as D1.
  pose proof (Z.mod_pos_bound m h ltac:(lia)) as B1.
  pose proof (Z.div_mod (m / h) 2 ltac:(lia)) as D2.
  pose proof (Z.mod_pos_bound (m / h) 2 ltac:(lia)) as B2.
  rewrite <- Hq in D2. rewrite H2k.
  destruct (Z.testbit m (k - 1)) eqn:Hb.
  - apply Z.testbit_true in Hb; [|lia]. fold h in Hb. nia.
  - apply Z.testbit_false in Hb; [|lia]. fold h in Hb. nia.
Qed.

(** *** Cutting a mantissa to the exponent of the result *)

Lemma fexp_eq (x : Z) : fexp prec emax x = fexp64 x.
Proof. reflexivity. Qed.

Lemma shr_fexp_noshift (m : positive) (e : Z) (l : location) :
  fexp64 (Zpos (digits2_pos m) + e) <= e ->
  shr_fexp prec emax (Zpos m) e l = (shr_record_of_loc (Zpos m) l, e).
Proof.
  intros H. unfold shr_fexp, shr. rewrite fexp_eq. cbn [Zdigits2].
  destruct (fexp64 (Zpos (digits2_pos m) + e) - e) eqn:Hk; try reflexivity. lia.
Qed.

(** A cut of [k] digits leaves the quotient by [2^k]; the round bit is the
    highest digit cut off. *)
Lemma shr_fexp_shift (m : positive) (e : Z) :
  e < fexp64 (Zpos (digits2_pos m) + e) ->
  exists mrs,
    shr_fexp prec emax (Zpos m) e loc_Exact
    = (mrs, fexp64 (Zpos (digits2_pos m) + e))
    /\ shr_m mrs = Zpos m / 2 ^ (fexp64 (Zpos (digits2_pos m) + e) - e)
    /\ shr_r mrs = Z.testbit (Zpos m) (fexp64 (Zpos (digits2_pos m) + e) - e - 1).
Proof.
  intros H. unfold shr_fexp, shr. rewrite fexp_eq. cbn [Zdigits2].
  set (E := fexp64 (Zpos (digits2_pos m) + e)) in *.
  destruct (E - e) as [|p|p] eqn:Hk; try lia.
  eexists. split; [|split].
  - f_equal. lia.
  - destruct (iter_shr_m p (shr_record_of_loc (Zpos m) loc_Exact)) as [Em _];
      [cbn; lia|]. rewrite Em. reflexivity.
  - rewrite iter_shr_r by (cbn; lia). reflexivity.
Qed.

Lemma rne_cases (mrs : shr_record) :
  round_nearest_even (shr_m mrs) (loc_of_shr_record mrs) = shr_m mrs
  \/ (round_nearest_even (shr_m mrs) (loc_of_shr_record mrs) = shr_m mrs + 1
      /\ shr_r mrs = true).
Proof.
  destruct mrs as [m [|] [|]]; cbn; auto.
  destruct (Z.even m); auto.
Qed.

(** Quotient by the excess digits keeps 53 digits. *)
Lemma quot_53 (m : positive) (k : Z) :
  0 < k -> k = Zpos (digits2_pos m) - 53 ->
  2 ^ 52 <= Zpos m / 2 ^ k < 2 ^ 53.
Proof.
  intros Hk Hd. pose proof (digits_upper m) as Du. pose proof (digits_lower m) as Dl.
  replace (Zpos (digits2_pos m)) with (k + 53) in Du by lia.
  replace (Zpos (digits2_pos m) - 1) with (k + 52) in Dl by lia.
  rewrite Z.pow_add_r in Du, Dl by lia.
  pose proof (Z.pow_pos_nonneg 2 k ltac:(lia) ltac:(lia)) as Hp.
  split.
  - apply Z.div_le_lower_bound; lia.
  - apply Z.div_lt_upper_bound; lia.
Qed.

(** The result of rounding the mantissa [m] at the exponent [e]: a mantissa
    [n] at the exponent [E] of the doubles of that magnitude, which is the
    quotient [q] of [m] by the digits cut off, or [q + 1]. *)
Lemma bra_shape (sx : bool) (m : positive) (e : Z) :
  let E := fexp64 (Zpos (digits2_pos m) + e) in
  let q := Zpos m / 2 ^ (E - e) in
  let r := binary_round_aux prec emax sx (Zpos m) e loc_Exact in
  e <= E ->
  exists n : Z,
    (q <= n <= q + 1
     /\ (n = q + 1 -> (2 * q + 1) * 2 ^ (E - e) <= 2 * Zpos m)
     /\ (2 * Zpos m < (2 * q + 1) * 2 ^ (E - e) -> n = q)
     /\ q < 2 ^ 53
     /\ (-1074 < E -> 2 ^ 52 <= q))
    /\ ((n = 0 /\ r = S754_zero sx)
        \/ exists mr er,
             Zpos mr * 2 ^ (er - E) = n
             /\ (er = E \/ (er = E + 1 /\ n = 2 ^ 53))
             /\ r = if er <=? 971 then S754_finite sx mr er
                    else S754_infinity sx).
Proof.
  intros E q r HeE.
  pose proof (digits_upper m) as Du. pose proof (digits_lower m) as Dl.
  set (d := Zpos (digits2_pos m)) in *.
  assert (Hd0 : 0 < d) by (unfold d; lia).
  assert (HE : E = Z.max (d + e - 53) (-1074)) by reflexivity.
  pose proof (Z.pow_pos_nonneg 2 (E - e) ltac:(lia) ltac:(lia)) as Hk.
  assert (Hq53 : q < 2 ^ 53).
  { unfold q. apply Z.div_lt_upper_bound; [lia|].
    assert (2 ^ d <= 2 ^ (E - e + 53)) by (apply Z.pow_le_mono_r; lia).
    rewrite Z.pow_add_r in H by lia. lia. }
  assert (Hq52 : -1074 < E -> 2 ^ 52 <= q).
  { intros H. assert (Hkd : E - e = d - 53) by lia.
    destruct (Z.eq_dec (E - e) 0) as [H0|H0].
    - unfold q. rewrite H0. change (2 ^ 0) with 1. rewrite Z.div_1_r.
      replace (d - 1) with 52 in Dl by lia. exact Dl.
    - apply (quot_53 m (E - e)); [lia|]. fold d. lia. }
  assert (Hq0 : 0 <= q) by (unfold q; apply Z.div_pos; lia).
  (* the second cut, after rounding *)
  assert (Hsecond : forall n : Z, q <= n <= q + 1 ->
            (n = 0 /\
             (let '(mrs, e'') := shr_fexp prec emax n E loc_Exact in
              match shr_m mrs with
              | 0 => S754_zero sx
              | Zpos m0 =>
                  if e'' <=? emax - prec then S754_finite sx m0 e''
                  else S754_infinity sx
              | Zneg _ => S754_nan
              end) = S754_zero sx)
            \/ exists mr er,
                 Zpos mr * 2 ^ (er - E) = n
                 /\ (er = E \/ (er = E + 1 /\ n = 2 ^ 53))
                 /\ (let '(mrs, e'') := shr_fexp prec emax n E loc_Exact in
                     match shr_m mrs with
                     | 0 => S754_zero sx
                     | Zpos m0 =>
                         if e'' <=? emax - prec then S754_finite sx m0 e''
                         else S754_infinity sx
                     | Zneg _ => S754_nan
                     end)
                    = if er <=? 971 then S754_finite sx mr er
                      else S754_infinity sx).
  { intros n Hn. destruct n as [|pn|pn]; [left|right|lia].
    - split; [reflexivity|]. unfold shr_fexp, shr. rewrite fexp_eq.
      cbn [Zdigits2]. unfold fexp64.
      destruct (Z.max (0 + E - 53) (-1074) - E) eqn:Hz; try reflexivity. lia.
    - change (2 ^ 53) with 9007199254740992 in Hq53.
      destruct (Z.eq_dec (Zpos pn) 9007199254740992) as [Htop|Hnot].
      + assert (Hd : Zpos (digits2_pos pn) = 54).
        { apply digits_unique. rewrite Htop. split; reflexivity. }
        assert (Hs2 : E < fexp64 (Zpos (digits2_pos pn) + E))
          by (rewrite Hd; unfold fexp64; lia).
        destruct (shr_fexp_shift pn E Hs2) as (mrs2 & Hshr2 & Hm2 & _).
        rewrite Hshr2.
        replace (fexp64 (Zpos (digits2_pos pn) + E)) with (E + 1) in *
          by (rewrite Hd; unfold fexp64; lia).
        replace (E + 1 - E) with 1 in Hm2 by lia. rewrite Htop in Hm2.
        change (9007199254740992 / 2 ^ 1) with (Zpos 4503599627370496) in Hm2.
        rewrite Hm2. exists 4503599627370496%positive, (E + 1).
        replace (E + 1 - E) with 1 by lia. split; [rewrite Htop; reflexivity|].
        split; [right; split; [reflexivity|exact Htop]|reflexivity].
      + assert (Hd : Zpos (digits2_pos pn) <= 53).
        { pose proof (digits_lower pn) as Dn.
          destruct (Z.le_gt_cases (Zpos (digits2_pos pn)) 53) as [|Hgt];
            [assumption|].
          assert (2 ^ 53 <= 2 ^ (Zpos (digits2_pos pn) - 1))
            by (apply Z.pow_le_mono_r; lia).
          change (2 ^ 53) with 9007199254740992 in H. lia. }
        assert (Hn2 : fexp64 (Zpos (digits2_pos pn) + E) <= E)
          by (unfold fexp64; lia).
        rewrite (shr_fexp_noshift pn E loc_Exact Hn2).
        cbn [shr_record_of_loc shr_m].
        exists pn, E. rewrite Z.sub_diag. change (2 ^ 0) with 1.
        split; [lia|]. split; [left; reflexivity|reflexivity]. }
  destruct (Z.eq_dec E e) as [Heq|Hne].
  - (* nothing is cut off *)
    assert (Hqm : q = Zpos m).
    { unfold q. rewrite Heq, Z.sub_diag. change (2 ^ 0) with 1.
      apply Z.div_1_r. }
    exists (Zpos m). split.
    + rewrite Hqm. split; [lia|]. split; [lia|]. split; [reflexivity|].
      rewrite <- Hqm. split; [exact Hq53|exact Hq52].
    + unfold r, binary_round_aux.
      rewrite (shr_fexp_noshift m e loc_Exact) by (fold d; fold E; lia).
      cbn [shr_record_of_loc shr_m loc_of_shr_record round_nearest_even].
      rewrite <- Heq. apply Hsecond. lia.
  - destruct (shr_fexp_shift m e) as (mrs & Hshr & Hm & Hr);
      [fold d; fold E; lia|].
    fold d in Hshr, Hm, Hr. fold E in Hshr, Hm, Hr. fold q in Hm.
    pose proof (bit_below_cut (Zpos m) (E - e) ltac:(lia) ltac:(lia)) as Hbit.
    cbv zeta in Hbit. fold q in Hbit. rewrite <- Hr in Hbit.
    exists (round_nearest_even (shr_m mrs) (loc_of_shr_record mrs)). split.
    + destruct (rne_cases mrs) as [Hc|[Hc Hrb]]; rewrite Hc, Hm.
      * split; [lia|]. split; [lia|]. split; [reflexivity|].
        split; [exact Hq53|exact Hq52].
      * rewrite Hrb in Hbit. split; [lia|]. split; [intros _; exact Hbit|].
        split; [lia|]. split; [exact Hq53|exact Hq52].
    + unfold r, binary_round_aux. rewrite Hshr. apply Hsecond.
      destruct (rne_cases mrs) as [Hc|[Hc _]]; rewrite Hc, Hm; lia.
Qed.

(** *** Valid doubles and their order *)

(** A valid double: the exponent is in range and the mantissa has at most
    53 digits, exactly 53 above the lowest exponent. *)
Lemma valid_canonical (s : bool) (m : positive) (e : Z) :
  valid_binary (S754_finite s m e) = true ->
  -1074 <= e <= 971 /\ Zpos m < 2 ^ 53 /\ (-1074 < e -> 2 ^ 52 <= Zpos m).
Proof.
  unfold SpecFloat.valid_binary, bounded, canonical_mantissa. rewrite fexp_eq.
  unfold prec, emax. rewrite andb_true_iff, Z.eqb_eq, Z.leb_le.
  unfold fexp64. intros [Hc He].
  pose proof (digits_upper m) as Du. pose proof (digits_lower m) as Dl.
  set (d := Zpos (digits2_pos m)) in *.
  assert (Hd : d <= 53) by lia.
  split; [lia|]. split.
  - assert (2 ^ d <= 2 ^ 53) by (apply Z.pow_le_mono_r; lia). lia.
  - intros H. assert (d = 53) by lia. subst d. rewrite H0 in Dl. exact Dl.
Qed.

(** On valid doubles, the order of the values is the order [<=?] tests. *)
Lemma canon_leb (m1 m2 : positive) (e1 e2 : Z) :
  valid_binary (S754_finite false m1 e1) = true ->
  valid_binary (S754_finite false m2 e2) = true ->
  sval m1 e1 <= sval m2 e2 ->
  SFleb (S754_finite false m1 e1) (S754_finite false m2 e2) = true.
Proof.
  intros V1 V2 H. apply valid_canonical in V1, V2.
  destruct V1 as (R1 & U1 & L1), V2 as (R2 & U2 & L2).
  unfold sval in H. unfold SFleb, SFcompare.
  change (2 ^ 53) with 9007199254740992 in *.
  change (2 ^ 52) with 4503599627370496 in *.
  destruct (Z.compare_spec e1 e2) as [He|He|He]; [|reflexivity|exfalso].
  - subst e2. change (Pos.compare_cont Eq m1 m2) with (Pos.compare m1 m2).
    pose proof (Z.pow_pos_nonneg 2 (e1 + 2148) ltac:(lia) ltac:(lia)) as HP.
    destruct (Pos.compare_spec m1 m2) as [Hm|Hm|Hm]; try reflexivity.
    exfalso. apply Pos2Z.pos_lt_pos in Hm. nia.
  - pose proof (Z.pow_pos_nonneg 2 (e2 + 2148) ltac:(lia) ltac:(lia)) as HP.
    assert (Hpow : 2 * 2 ^ (e2 + 2148) <= 2 ^ (e1 + 2148)).
    { rewrite <- Z.pow_succ_r by lia. apply Z.pow_le_mono_r; lia. }
    specialize (L1 ltac:(lia)). nia.
Qed.

Lemma cmp_not_gt (a b : positive) :
  Pos.compare_cont Eq a b <> Gt -> Zpos a <= Zpos b.
Proof.
  change (Pos.compare_cont Eq a b) with (Pos.compare a b).
  destruct (Pos.compare_spec a b) as [H|H|H]; intros Hc.
  - subst. apply Z.le_refl.
  - apply Pos2Z.pos_lt_pos in H. apply Z.lt_le_incl, H.
  - congruence.
Qed.

Lemma cmp_not_lt (a b : positive) :
  Pos.compare_cont Eq a b <> Lt -> Zpos b <= Zpos a.
Proof.
  change (Pos.compare_cont Eq a b) with (Pos.compare a b).
  destruct (Pos.compare_spec a b) as [H|H|H]; intros Hc.
  - subst. apply Z.le_refl.
  - congruence.
  - apply Pos2Z.pos_lt_pos in H. apply Z.lt_le_incl, H.
Qed.

(** *** Rounding to nearest keeps the order *)

(** Rounding does not pass a double [g] from a number that is below the
    middle between [g] and the next double. *)
Lemma bra_le (sx : bool) (m : positive) (e : Z) (mg : positive) (eg : Z) :
  -2148 <= e -> e <= fexp64 (Zpos (digits2_pos m) + e) ->
  valid_binary (S754_finite false mg eg) = true ->
  2 * sval m e < (2 * Zpos mg + 1) * 2 ^ (eg + 2148) ->
  let r := binary_round_aux prec emax sx (Zpos m) e loc_Exact in
  r = S754_zero sx
  \/ exists mr er, r = S754_finite sx mr er /\ sval mr er <= sval mg eg.
Proof.
  intros He HeE Vg Hv r.
  apply valid_canonical in Vg. destruct Vg as (Rg & Ug & Lg).
  destruct (bra_shape sx m e HeE) as (n & (Hn & Hup & Hdn & Hq53 & Hq52) & Hr).
  fold r in Hr.
  set (E := fexp64 (Zpos (digits2_pos m) + e)) in *.
  set (q := Zpos m / 2 ^ (E - e)) in *.
  destruct Hr as [[_ Hr]|(mr & er & Hmr & Her & Hr)]; [left; exact Hr|right].
  assert (HE : -1074 <= E) by (unfold E, fexp64; lia).
  pose proof (Z.pow_pos_nonneg 2 (e + 2148) ltac:(lia) ltac:(lia)) as HA.
  pose proof (Z.pow_pos_nonneg 2 (E - e) ltac:(lia) ltac:(lia)) as HB.
  pose proof (Z.pow_pos_nonneg 2 (eg + 2148) ltac:(lia) ltac:(lia)) as HG.
  assert (HAB : 2 ^ (E + 2148) = 2 ^ (E - e) * 2 ^ (e + 2148))
    by (rewrite <- Z.pow_add_r by lia; f_equal; lia).
  pose proof (Z.mul_div_le (Zpos m) (2 ^ (E - e)) ltac:(lia)) as Hql.
  fold q in Hql.
  unfold sval in Hv.
  change (2 ^ 53) with 9007199254740992 in *.
  change (2 ^ 52) with 4503599627370496 in *.
  set (A := 2 ^ (e + 2148)) in *. set (B := 2 ^ (E - e)) in *.
  set (G := 2 ^ (eg + 2148)) in *.
  assert (Hval : sval mr er = n * (B * A)).
  { unfold sval. rewrite <- Hmr, <- HAB.
    assert (H1 : 2 ^ (er + 2148) = 2 ^ (er - E) * 2 ^ (E + 2148))
      by (rewrite <- Z.pow_add_r by lia; f_equal; lia).
    rewrite H1. lia. }
  destruct (Z.lt_trichotomy E eg) as [Hlt|[Heq|Hgt]].
  - (* the result is in a lower binade than g *)
    assert (HGE : 2 * (B * A) <= G).
    { rewrite <- HAB. unfold G. rewrite <- Z.pow_succ_r by lia.
      apply Z.pow_le_mono_r; lia. }
    specialize (Lg ltac:(lia)).
    exists mr, er. split.
    + rewrite Hr. replace (er <=? 971) with true; [reflexivity|].
      symmetry. apply Z.leb_le. lia.
    + rewrite Hval. unfold sval. fold G. nia.
  - (* the same binade *)
    assert (HGE : G = B * A) by (unfold G; rewrite <- Heq; exact HAB).
    assert (Hnle : n <= Zpos mg).
    { destruct (Z.eq_dec n q) as [Hnq|Hnq].
      - subst n. nia.
      - assert (Hn1 : n = q + 1) by lia. specialize (Hup Hn1). nia. }
    exists mr, er. split.
    + rewrite Hr. replace (er <=? 971) with true; [reflexivity|].
      symmetry. apply Z.leb_le. lia.
    + rewrite Hval. unfold sval. fold G. rewrite HGE. nia.
  - (* a higher binade: impossible *)
    exfalso. specialize (Hq52 ltac:(lia)).
    assert (HGE : 2 * G <= B * A).
    { rewrite <- HAB. unfold G. rewrite <- Z.pow_succ_r by lia.
      apply Z.pow_le_mono_r; lia. }
    nia.
Qed.

(** Rounding does not fall below a double [t] from a number that is at least
    [t]. *)
Lemma bra_ge (sx : bool) (m : positive) (e : Z) (mt : positive) (et : Z) :
  -2148 <= e -> e <= fexp64 (Zpos (digits2_pos m) + e) ->
  valid_binary (S754_finite false mt et) = true ->
  sval mt et <= sval m e ->
  let r := binary_round_aux prec emax sx (Zpos m) e loc_Exact in
  r = S754_infinity sx
  \/ exists mr er, r = S754_finite sx mr er /\ sval mt et <= sval mr er.
Proof.
  intros He HeE Vt Hv r.
  apply valid_canonical in Vt. destruct Vt as (Rt & Ut & _).
  destruct (bra_shape sx m e HeE) as (n & (Hn & _ & _ & Hq53 & Hq52) & Hr).
  fold r in Hr.
  set (E := fexp64 (Zpos (digits2_pos m) + e)) in *.
  set (q := Zpos m / 2 ^ (E - e)) in *.
  assert (HE : -1074 <= E) by (unfold E, fexp64; lia).
  pose proof (Z.pow_pos_nonneg 2 (e + 2148) ltac:(lia) ltac:(lia)) as HA.
  pose proof (Z.pow_pos_nonneg 2 (E - e) ltac:(lia) ltac:(lia)) as HB.
  pose proof (Z.pow_pos_nonneg 2 (et + 2148) ltac:(lia) ltac:(lia)) as HT.
  assert (HAB : 2 ^ (E + 2148) = 2 ^ (E - e) * 2 ^ (e + 2148))
    by (rewrite <- Z.pow_add_r by lia; f_equal; lia).
  unfold sval in Hv.
  change (2 ^ 53) with 9007199254740992 in *.
  change (2 ^ 52) with 4503599627370496 in *.
  (* [t] is at most the quotient, at the exponent of the result *)
  assert (Htq : sval mt et <= q * 2 ^ (E + 2148)).
  { unfold sval. destruct (Z.lt_ge_cases et E) as [Hlo|Hhi].
    - assert (Hpow : 2 * 2 ^ (et + 2148) <= 2 ^ (E + 2148)).
      { rewrite <- Z.pow_succ_r by lia. apply Z.pow_le_mono_r; lia. }
      specialize (Hq52 ltac:(lia)). nia.
    - pose proof (Z.pow_pos_nonneg 2 (et - E) ltac:(lia) ltac:(lia)) as HC.
      assert (HCE : 2 ^ (et + 2148) = 2 ^ (et - E) * 2 ^ (E + 2148))
        by (rewrite <- Z.pow_add_r by lia; f_equal; lia).
      rewrite HCE in Hv |- *. rewrite HAB in Hv.
      assert (Hq' : Zpos mt * 2 ^ (et - E) <= q).
      { unfold q. apply Z.div_le_lower_bound; [lia|]. nia. }
      nia. }
  assert (Htpos : 0 < sval mt et) by (unfold sval; nia).
  pose proof (Z.pow_pos_nonneg 2 (E + 2148) ltac:(lia) ltac:(lia)) as HEp.
  destruct Hr as [[Hn0 _]|(mr & er & Hmr & Her & Hr)]; [nia|].
  rewrite Hr. destruct (er <=? 971); [right|left; reflexivity].
  exists mr, er. split; [reflexivity|].
  eapply Z.le_trans; [exact Htq|].
  assert (Hval : sval mr er = n * 2 ^ (E + 2148)).
  { unfold sval. rewrite <- Hmr.
    assert (H1 : 2 ^ (er + 2148) = 2 ^ (er - E) * 2 ^ (E + 2148))
      by (rewrite <- Z.pow_add_r by lia; f_equal; lia).
    rewrite H1. lia. }
  rewrite Hval. nia.
Qed.

(** [binary_round] first brings the mantissa to the exponent of the result
    when that is lower; the value is the same. *)
Lemma binary_round_aligned (sx : bool) (m : positive) (e : Z) :
  -1074 <= e ->
  exists mz ez,
    binary_round prec emax sx m e
    = binary_round_aux prec emax sx (Zpos mz) ez loc_Exact
    /\ sval mz ez = sval m e
    /\ -1074 <= ez
    /\ ez <= fexp64 (Zpos (digits2_pos mz) + ez).
Proof.
  intros He. unfold binary_round. rewrite fexp_eq.
  pose proof (digits_upper m) as Du. pose proof (digits_lower m) as Dl.
  set (d := Zpos (digits2_pos m)) in *. set (E := fexp64 (d + e)).
  assert (HE : -1074 <= E) by (unfold E, fexp64; lia).
  destruct (Z.lt_ge_cases E e) as [Hlt|Hge].
  - destruct (shl_align_value m e E ltac:(lia)) as [Hv Hs].
    destruct (shl_align m e E) as [mz ez]. cbn [fst snd] in Hv, Hs. subst ez.
    pose proof (Z.pow_pos_nonneg 2 (e - E) ltac:(lia) ltac:(lia)) as HP.
    assert (Hdz : Zpos (digits2_pos mz) = d + e - E).
    { apply digits_unique. rewrite Hv.
      assert (0 < d) by (unfold d; lia).
      assert (H1 : 2 ^ (d + e - E - 1) = 2 ^ (d - 1) * 2 ^ (e - E))
        by (rewrite <- Z.pow_add_r by lia; f_equal; lia).
      assert (H2 : 2 ^ (d + e - E) = 2 ^ d * 2 ^ (e - E))
        by (rewrite <- Z.pow_add_r by lia; f_equal; lia).
      rewrite H1, H2. nia. }
    exists mz, E. split; [reflexivity|]. split; [|split; [exact HE|]].
    + unfold sval. rewrite Hv.
      assert (HAB : 2 ^ (e + 2148) = 2 ^ (e - E) * 2 ^ (E + 2148))
        by (rewrite <- Z.pow_add_r by lia; f_equal; lia).
      rewrite HAB. lia.
    + rewrite Hdz. replace (d + e - E + E) with (d + e) by lia. fold E. lia.
  - assert (Hal : shl_align m e E = (m, e)).
    { unfold shl_align. destruct (E - e) eqn:Hk; try reflexivity. lia. }
    rewrite Hal. exists m, e. split; [reflexivity|]. split; [reflexivity|].
    split; [exact He|]. fold d. fold E. lia.
Qed.

Lemma binary_round_le (m : positive) (e : Z) (mg : positive) (eg : Z) :
  -1074 <= e ->
  valid_binary (S754_finite false mg eg) = true ->
  2 * sval m e < (2 * Zpos mg + 1) * 2 ^ (eg + 2148) ->
  binary_round prec emax false m e = S754_zero false
  \/ exists mr er,
       binary_round prec emax false m e = S754_finite false mr er
       /\ sval mr er <= sval mg eg.
Proof.
  intros He Vg Hv.
  destruct (binary_round_aligned false m e He) as (mz & ez & Hr & Hz & Hez & Hfe).
  rewrite Hr. apply bra_le; try assumption; [lia|]. rewrite Hz. exact Hv.
Qed.

Lemma binary_round_ge (m : positive) (e : Z) (mt : positive) (et : Z) :
  -1074 <= e ->
  valid_binary (S754_finite false mt et) = true ->
  sval mt et <= sval m e ->
  binary_round prec emax false m e = S754_infinity false
  \/ exists mr er,
       binary_round prec emax false m e = S754_finite false mr er
       /\ sval mt et <= sval mr er.
Proof.
  intros He Vt Hv.
  destruct (binary_round_aligned false m e He) as (mz & ez & Hr & Hz & Hez & Hfe).
  rewrite Hr. apply bra_ge; try assumption; [lia|]. rewrite Hz. exact Hv.
Qed.

(** *** Adding the step to the accumulator *)

(** The sum of a non-negative double and a positive one is not below the
    former, and is again non-negative. *)
Lemma SFadd_ge (x : spec_float) (mc : positive) (ec : Z) :
  valid_binary x = true -> nonneg x ->
  valid_binary (S754_finite false mc ec) = true ->
  valid_binary (SF64add x (S754_finite false mc ec)) = true ->
  SFleb x (SF64add x (S754_finite false mc ec)) = true
  /\ nonneg (SF64add x (S754_finite false mc ec)).
Proof.
  intros Vx Nx Vc Vr.
  destruct x as [s|[|]| |[|] mt et]; try contradiction; cbn in Vr |- *.
  - split; reflexivity || exact I.
  - split; reflexivity || exact I.
  - unfold SF64add, SFadd in *. cbn [cond_Zopp] in *.
    pose proof (valid_canonical _ _ _ Vx) as (Rt & _ & _).
    pose proof (valid_canonical _ _ _ Vc) as (Rc & _ & _).
    set (ez := Z.min et ec) in *.
    destruct (shl_align_value mt et ez ltac:(lia)) as [Ha _].
    destruct (shl_align_value mc ec ez ltac:(lia)) as [Hb _].
    set (a := fst (shl_align mt et ez)) in *.
    set (b := fst (shl_align mc ec ez)) in *.
    change (Zpos a + Zpos b) with (Zpos (a + b)) in *.
    cbn [binary_normalize] in *.
    destruct (binary_round_ge (a + b) ez mt et ltac:(lia) Vx) as [Hr|(mr & er & Hr & Hv)].
    + unfold sval. rewrite Pos2Z.inj_add, Ha.
      pose proof (Z.pow_pos_nonneg 2 (ez + 2148) ltac:(lia) ltac:(lia)) as HP.
      assert (HT : 2 ^ (et + 2148) = 2 ^ (et - ez) * 2 ^ (ez + 2148))
        by (rewrite <- Z.pow_add_r by lia; f_equal; lia).
      rewrite HT. nia.
    + rewrite Hr. split; reflexivity || exact I.
    + rewrite Hr in Vr |- *. split; [|exact I]. apply canon_leb; assumption.
Qed.

Lemma add_step_ge (t c : float) (mc : positive) (ec : Z) :
  Prim2SF c = S754_finite false mc ec ->
  nonneg (Prim2SF t) ->
  (t <=? t + c)%float = true /\ nonneg (Prim2SF (t + c)).
Proof.
  intros Hc Ht. rewrite leb_spec, add_spec, Hc.
  apply SFadd_ge.
  - apply Prim2SF_valid.
  - exact Ht.
  - rewrite <- Hc. apply Prim2SF_valid.
  - rewrite <- Hc, <- add_spec. apply Prim2SF_valid.
Qed.

Lemma step_spec : Prim2SF 0.005%float = S754_finite false 5764607523034235 (-60).
Proof. vm_compute. reflexivity. Qed.

(** The accumulator never decreases, and it is never negative nor NaN. *)
Lemma accumulate_monotone (n : nat) :
  let acc := fun n => Nat.iter n (fun t => t + 0.005)%float 0%float in
  (acc n <=? acc (S n))%float = true /\ nonneg (Prim2SF (acc n)).
Proof.
  cbv zeta. induction n as [|n [_ IH]].
  - split; [vm_compute; reflexivity|vm_compute; exact I].
  - split.
    + apply (add_step_ge _ _ _ _ step_spec).
      apply (add_step_ge _ _ _ _ step_spec IH).
    + apply (add_step_ge _ _ _ _ step_spec IH).
Qed.

(** *** The hover of the sphere *)

Lemma SF_tenth : Prim2SF 0.1%float = S754_finite false m_tenth (-56).
Proof. vm_compute. reflexivity. Qed.

Lemma SF_base : Prim2SF 0.4%float = S754_finite false m_tenth (-54).
Proof. vm_compute. reflexivity. Qed.

Lemma SF_low : Prim2SF 0.3%float = S754_finite false 5404319552844595 (-54).
Proof. vm_compute. reflexivity. Qed.

Lemma SF_high : Prim2SF 0.5%float = S754_finite false 4503599627370496 (-53).
Proof. vm_compute. reflexivity. Qed.

Lemma SF_one : Prim2SF 1%float = S754_finite false 4503599627370496 (-52).
Proof. vm_compute. reflexivity. Qed.

Lemma SF_minus_one : Prim2SF (-1)%float = S754_finite true 4503599627370496 (-52).
Proof. vm_compute. reflexivity. Qed.

(** A double between -1 and 1 is zero or has a mantissa [m] and an exponent
    [e] with [m * 2^e <= 1]. *)
Lemma unit_range (x : spec_float) :
  valid_binary x = true ->
  SFleb (S754_finite true 4503599627370496 (-52)) x = true ->
  SFleb x (S754_finite false 4503599627370496 (-52)) = true ->
  match x with
  | S754_zero _ => True
  | S754_finite _ m e => -1074 <= e <= -52 /\ Zpos m <= 2 ^ (- e)
  | _ => False
  end.
Proof.
  intros Vx Hl Hu. destruct x as [s|s| |s m e]; try exact I.
  - destruct s; [discriminate Hl|discriminate Hu].
  - discriminate Hl.
  - apply valid_canonical in Vx. destruct Vx as (Re & Um & _).
    unfold SFleb, SFcompare in Hl, Hu.
    assert (Hm : (e < -52 \/ (e = -52 /\ Zpos m <= 4503599627370496))).
    { destruct s.
      - destruct (Z.compare_spec (-52) e) as [He|He|He];
          [|discriminate Hl|left; lia].
        right. split; [lia|]. apply cmp_not_lt. intros Hc.
        rewrite Hc in Hl. discriminate Hl.
      - destruct (Z.compare_spec e (-52)) as [He|He|He];
          [|left; lia|discriminate Hu].
        right. split; [lia|]. apply cmp_not_gt. intros Hc.
        rewrite Hc in Hu. discriminate Hu. }
    destruct Hm as [He|[He Hm]].
    + split; [lia|].
      assert (2 ^ 53 <= 2 ^ (- e)) by (apply Z.pow_le_mono_r; lia). lia.
    + subst e. split; [lia|]. exact Hm.
Qed.

(** A tenth of a double between -1 and 1 is at most a tenth in magnitude. *)
Lemma SFmul_small (x : spec_float) :
  match x with
  | S754_zero _ => True
  | S754_finite _ m e => -1074 <= e <= -52 /\ Zpos m <= 2 ^ (- e)
  | _ => False
  end ->
  small (SF64mul x SF_c).
Proof.
  destruct x as [s|s| |s m e]; try contradiction.
  - intros _. exact I.
  - intros [He Hm]. unfold SF64mul, SFmul, SF_c.
    pose proof (digits_upper (m * m_tenth)) as Du.
    assert (Hd : 53 <= Zpos (digits2_pos (m * m_tenth))).
    { destruct (Z.le_gt_cases 53 (Zpos (digits2_pos (m * m_tenth)))) as [|Hlt];
        [assumption|].
      assert (H52 : 2 ^ Zpos (digits2_pos (m * m_tenth)) <= 2 ^ 52)
        by (apply Z.pow_le_mono_r; lia).
      change (2 ^ 52) with 4503599627370496 in H52.
      set (D := 2 ^ Zpos (digits2_pos (m * m_tenth))) in *.
      rewrite Pos2Z.inj_mul in Du. unfold m_tenth in Du. lia. }
    destruct (bra_le (xorb s false) (m * m_tenth) (e + -56) m_tenth (-56))
      as [Hr|(mr & er & Hr & Hv)].
    + lia.
    + unfold fexp64. lia.
    + reflexivity.
    + unfold sval. rewrite Pos2Z.inj_mul.
      assert (HW : 2 ^ (-56 + 2148) = 2 ^ (- e) * 2 ^ (e + -56 + 2148))
        by (rewrite <- Z.pow_add_r by lia; f_equal; lia).
      rewrite HW.
      pose proof (Z.pow_pos_nonneg 2 (e + -56 + 2148) ltac:(lia) ltac:(lia)) as HP.
      set (W := 2 ^ (e + -56 + 2148)) in *. set (T := 2 ^ (- e)) in *.
      unfold m_tenth. nia.
    + rewrite Hr. exact I.
    + rewrite Hr. exact Hv.
Qed.

(** A lower and an upper bound on the value give the two tests. *)
Lemma two_sided (r : spec_float) (mlo : positive) (elo : Z) (mhi : positive) (ehi : Z) :
  valid_binary r = true ->
  valid_binary (S754_finite false mlo elo) = true ->
  valid_binary (S754_finite false mhi ehi) = true ->
  (r = S754_infinity false
   \/ exists mr er, r = S754_finite false mr er /\ sval mlo elo <= sval mr er) ->
  (r = S754_zero false
   \/ exists mr er, r = S754_finite false mr er /\ sval mr er <= sval mhi ehi) ->
  SFleb (S754_finite false mlo elo) r = true
  /\ SFleb r (S754_finite false mhi ehi) = true.
Proof.
  intros Vr Vlo Vhi [Hl|(ml & el & Hl & Hvl)] [Hu|(mu & eu & Hu & Hvu)];
    try congruence.
  rewrite Hl in Hu. injection Hu as <- <-.
  rewrite Hl in Vr |- *. split; apply canon_leb; assumption.
Qed.

(** 0.4 plus a double of magnitude at most 0.1 is between 0.3 and 0.5: the
    exact sum may pass 0.5 by less than half the distance to the next double,
    and rounds to 0.5. *)
Lemma SFadd_hover (p : spec_float) :
  valid_binary p = true -> small p ->
  valid_binary (SF64add SF_b p) = true ->
  SFleb SF_lo (SF64add SF_b p) = true /\ SFleb (SF64add SF_b p) SF_hi = true.
Proof.
  intros Vp Hp Vr. destruct p as [s|s| |s mp ep]; try contradiction.
  - split; reflexivity.
  - cbn [small] in Hp.
    pose proof (valid_canonical _ _ _ Vp) as (Rp & _ & _).
    unfold SF64add, SFadd, SF_b in Vr |- *. cbn [cond_Zopp] in Vr |- *.
    set (ez := Z.min (-54) ep) in *.
    destruct (shl_align_value m_tenth (-54) ez ltac:(lia)) as [Ha _].
    destruct (shl_align_value mp ep ez ltac:(lia)) as [Hb _].
    set (a := fst (shl_align m_tenth (-54) ez)) in *.
    set (b := fst (shl_align mp ep ez)) in *.
    (* everything in the unit of 2^(ez + 2148) *)
    pose proof (Z.pow_pos_nonneg 2 (ez + 2148) ltac:(lia) ltac:(lia)) as HZ.
    assert (HB : sval m_tenth (-54) = Zpos a * 2 ^ (ez + 2148)).
    { unfold sval. rewrite Ha.
      assert (H : 2 ^ (-54 + 2148) = 2 ^ (-54 - ez) * 2 ^ (ez + 2148))
        by (rewrite <- Z.pow_add_r by lia; f_equal; lia).
      rewrite H. lia. }
    assert (HP : sval mp ep = Zpos b * 2 ^ (ez + 2148)).
    { unfold sval. rewrite Hb.
      assert (H : 2 ^ (ep + 2148) = 2 ^ (ep - ez) * 2 ^ (ez + 2148))
        by (rewrite <- Z.pow_add_r by lia; f_equal; lia).
      rewrite H. lia. }
    (* the constants in the unit of 2^(-56 + 2148) *)
    assert (HU : 0 < 2 ^ (-56 + 2148)) by (apply Z.pow_pos_nonneg; lia).
    assert (H54 : 2 ^ (-54 + 2148) = 4 * 2 ^ (-56 + 2148)) by reflexivity.
    assert (H53 : 2 ^ (-53 + 2148) = 8 * 2 ^ (-56 + 2148)) by reflexivity.
    assert (Vlo : valid_binary SF_lo = true) by reflexivity.
    assert (Vhi : valid_binary SF_hi = true) by reflexivity.
    assert (VB : sval m_tenth (-54) = 4 * Zpos m_tenth * 2 ^ (-56 + 2148))
      by (unfold sval; rewrite H54; lia).
    assert (VL : sval 5404319552844595 (-54)
                 = 4 * 5404319552844595 * 2 ^ (-56 + 2148))
      by (unfold sval; rewrite H54; lia).
    assert (VC : sval m_tenth (-56) = Zpos m_tenth * 2 ^ (-56 + 2148))
      by reflexivity.
    set (U := 2 ^ (-56 + 2148)) in *. clearbody U.
    set (Z0' := 2 ^ (ez + 2148)) in *.
    set (vb := sval m_tenth (-54)) in *. set (vp := sval mp ep) in *.
    set (vc := sval m_tenth (-56)) in *.
    set (vl := sval 5404319552844595 (-54)) in *.
    unfold m_tenth in VB, VC.
    destruct s.
    + (* the product is negative: the sum is between 0.3 and 0.4 *)
      assert (Hab : (b < a)%positive).
      { apply Pos2Z.pos_lt_pos. nia. }
      assert (Hdiff : Zpos a + cond_Zopp true (Zpos b) = Zpos (a - b))
        by (cbn [cond_Zopp]; rewrite Pos2Z.inj_sub by exact Hab; lia).
      rewrite Hdiff in Vr |- *.
      cbn [binary_normalize] in Vr |- *.
      assert (Hsum : sval (a - b) ez = vb - vp).
      { unfold sval. fold Z0'. rewrite Pos2Z.inj_sub by exact Hab.
        rewrite HB, HP. lia. }
      apply two_sided; try assumption.
      * apply binary_round_ge; [lia|exact Vlo|]. fold vl. rewrite Hsum. lia.
      * apply binary_round_le; [lia|exact Vhi|]. rewrite Hsum, H53.
        assert (0 < vp) by nia. lia.
    + (* the product is positive: the sum is between 0.4 and 0.5 *)
      change (Zpos a + cond_Zopp false (Zpos b)) with (Zpos (a + b))
        in Vr |- *.
      cbn [binary_normalize] in Vr |- *.
      assert (Hsum : sval (a + b) ez = vb + vp).
      { unfold sval. fold Z0'. rewrite Pos2Z.inj_add. rewrite HB, HP. lia. }
      apply two_sided; try assumption.
      * apply binary_round_ge; [lia|exact Vlo|]. fold vl. rewrite Hsum.
        assert (0 < vp) by nia. lia.
      * apply binary_round_le; [lia|exact Vhi|]. rewrite Hsum, H53. lia.
Qed.

(** In binary64, whatever double between -1 and 1 the sine is, the hover
    stays between 0.3 and 0.5. *)
Lemma hover_range64 (s : float) :
  (-1 <=? s)%float = true -> (s <=? 1)%float = true ->
  (0.3 <=? 0.4 + s * 0.1)%float = true
  /\ (0.4 + s * 0.1 <=? 0.5)%float = true.
Proof.
  intros Hl Hu. rewrite leb_spec, SF_minus_one in Hl. rewrite leb_spec, SF_one in Hu.
  rewrite !leb_spec, SF_low, SF_high.
  pose proof (Prim2SF_valid (0.4 + s * 0.1)) as Vr.
  rewrite add_spec, SF_base in Vr |- *.
  pose proof (Prim2SF_valid (s * 0.1)) as Vp.
  rewrite mul_spec, SF_tenth in Vp, Vr |- *.
  apply SFadd_hover; [exact Vp| |exact Vr].
  apply SFmul_small, unit_range; [apply Prim2SF_valid|exact Hl|exact Hu].
Qed.

End Rounding.

(** ** No sequence of doubles increases for ever *)

Lemma valid_finite (s : bool) (m : positive) (e : Z) :
  valid_binary (S754_finite s m e) = true ->
  (-1074 <= e <= 971 /\ Zpos m < Rank.two53)%Z.
Proof.
  intros H. apply valid_canonical in H. destruct H as (He & Hm & _).
  split; [exact He|exact Hm].
Qed.

Lemma rank_range (x : spec_float) :
  valid_binary x = true -> (- Rank.top <= Rank.rank x <= Rank.top)%Z.
Proof.
  destruct x as [s|s| |s m e]; intros Hv; cbn [Rank.rank].
  - unfold Rank.top, Rank.two53. lia.
  - destruct s; unfold Rank.top, Rank.two53; lia.
  - unfold Rank.top, Rank.two53. lia.
  - apply valid_finite in Hv. unfold Rank.code, Rank.top, Rank.two53 in *.
    destruct s; lia.
Qed.

Lemma rank_lt (x y : spec_float) :
  valid_binary x = true -> valid_binary y = true ->
  SFltb x y = true -> (Rank.rank x < Rank.rank y)%Z.
Proof.
  intros Hx Hy. unfold SFltb, SFcompare.
  destruct x as [sx|sx| |sx mx ex], y as [sy|sy| |sy my ey];
    try discriminate; cbn [Rank.rank].
  all: try apply valid_finite in Hx; try apply valid_finite in Hy.
  all: unfold Rank.code, Rank.top, Rank.two53 in *.
  all: try (destruct sx; try destruct sy; try discriminate; intros _; lia).
  all: try (destruct sy; try discriminate; intros _; lia).
  destruct sx, sy; try discriminate; try (intros _; lia).
  - destruct (Z.compare_spec ex ey); try discriminate; try (intros _; lia).
    change (Pos.compare_cont Eq mx my) with (Pos.compare mx my).
    destruct (Pos.compare_spec mx my); try discriminate. intros _. lia.
  - destruct (Z.compare_spec ex ey); try discriminate; try (intros _; lia).
    change (Pos.compare_cont Eq mx my) with (Pos.compare mx my).
    destruct (Pos.compare_spec mx my); try discriminate. intros _. lia.
Qed.

Lemma no_endless_increase (f : nat -> float) :
  ~ (forall n : nat, (f n <? f (S n))%float = true).
Proof.
  intros Hinc.
  assert (Hr : forall n : nat,
             (Rank.rank (Prim2SF (f 0%nat)) + Z.of_nat n
              <= Rank.rank (Prim2SF (f n)))%Z).
  { induction n as [|n IH]; [lia|].
    specialize (Hinc n). rewrite ltb_spec in Hinc.
    apply rank_lt in Hinc; try apply Prim2SF_valid. lia. }
  specialize (Hr (Z.to_nat (2 * Rank.top + 1))).
  pose proof (rank_range _ (Prim2SF_valid (f 0%nat))) as H0.
  pose proof (rank_range _ (Prim2SF_valid (f (Z.to_nat (2 * Rank.top + 1)))))
    as H1.
  rewrite Z2Nat.id in Hr by (unfold Rank.top, Rank.two53; lia). lia.
Qed.

(** ** The binary64 accumulator over a session *)

Lemma increasing_for_sound (k : nat) (t : float) :
  increasing_for k t = true ->
  forall i : nat, (i < k)%nat ->
    (Nat.iter i (fun t => t + 0.005) t
     <? Nat.iter (S i) (fun t => t + 0.005) t)%float = true.
Proof.
  revert t. induction k as [|k IH]; intros t Hk i Hi; [lia|].
  cbn [increasing_for] in Hk.
  destruct (t <? t + 0.005)%float eqn:Hlt; [|discriminate].
  destruct i as [|i]; [exact Hlt|].
  rewrite !(Nat.iter_succ_r _ _ t). apply (IH _ Hk). lia.
Qed.

Lemma close_for_sound (k : nat) (z : Z) (t : float) :
  close_for k z t = true ->
  forall i : nat, (i < k)%nat ->
    (abs (Nat.iter i (fun t => t + 0.005) t
          - 0.005 * Binary64.of_Z (z + Z.of_nat i)) <=? 1e-7)%float = true.
Proof.
  revert z t. induction k as [|k IH]; intros z t Hk i Hi; [lia|].
  cbn [close_for] in Hk.
  destruct (abs (t - 0.005 * Binary64.of_Z z) <=? 1e-7)%float eqn:Hc;
    [|discriminate].
  destruct i as [|i].
  - rewrite Z.add_0_r. exact Hc.
  - rewrite Nat.iter_succ_r.
    replace (z + Z.of_nat (S i))%Z with (Z.succ z + Z.of_nat i)%Z by lia.
    apply (IH _ _ Hk). lia.
Qed.

Lemma accumulated_increasing (n : nat) :
  (Z.of_nat n < session)%Z ->
  (accumulated n <? accumulated (S n))%float = true.
Proof.
  intros Hn. apply (increasing_for_sound (Z.to_nat session) 0%float).
  - vm_compute. reflexivity.
  - unfold session in *. lia.
Qed.

Lemma accumulated_close (n : nat) :
  (Z.of_nat n < session)%Z ->
  (abs (accumulated n - 0.005 * frame_count n) <=? 1e-7)%float = true.
Proof.
  intros Hn.
  apply (close_for_sound (Z.to_nat session) 0 0%float).
  - vm_compute. reflexivity.
  - unfold session in *. lia.
Qed.

(** ** The time accumulator *)

(** The accumulator in binary64 after 6 and after 200 frames, next to the
    product of the step and the frame count. *)
Lemma accumulated_values :
  accumulated 6 = 0.030000000000000002%float
  /\ (0.005 * frame_count 6)%float = 0.03%float
  /\ accumulated 200 = 1.0000000000000007%float
  /\ (0.005 * frame_count 200)%float = 1%float.
Proof. repeat split; vm_compute; reflexivity. Qed.

(** C1, as the specification states it, fails in binary64: the accumulator
    is not the product [0.005 * n] for every [n].  After 6 frames it is
    0.030000000000000002 and the product is 0.03. *)
Lemma time_after_frames_not_product :
  ~ (forall (sin : float -> float) (n : nat),
       time (bench sin n) = (0.005 * frame_count n)%float).
Proof.
  intros H. specialize (H (fun x => x) 6%nat). rewrite bench_time in H.
  revert H. apply float_neq. vm_compute. reflexivity.
Qed.

(** C1, amended.  From [time = 0] each invocation of the frame updater adds
    the step 0.005 to the accumulator and nothing resets it, so after [n]
    invocations the accumulator is the sum of [n] steps added one at a time.
    In binary64 every addition rounds: the sum stays within 1e-7 of
    [0.005 * n] during the first million frames.  In exact arithmetic the sum
    is [0.005 * n]. *)
Theorem time_after_frames :
  (forall (sin : float -> float) (T : ThreeTypes float)
          (L : @ThreeJS float (binary64 sin) T) (w : Window) (n : nat),
      time (@run float (binary64 sin) T L w n)
      = Nat.iter n (fun t => t + 0.005)%float 0%float)
  /\ (forall n : nat, (Z.of_nat n < session)%Z ->
        (abs (Nat.iter n (fun t => t + 0.005) 0 - 0.005 * frame_count n)
         <=? 1e-7)%float = true)
  /\ (forall (T : ThreeTypes R) (L : @ThreeJS R exact T) (w : Window)
             (n : nat),
        time (@run R exact T L w n) = (0.005 * INR n)%R).
Proof.
  split; [|split].
  - intros sin T L w n. apply binary64_time.
  - apply accumulated_close.
  - intros T L w n. apply exact_time.
Qed.

(** C7, as the specification states it, fails in binary64: the accumulator
    cannot be greater after every invocation than before it, because there
    are only finitely many doubles.  (Once the sum reaches 2^46, adding
    0.005 rounds back to the same value.) *)
Lemma time_stops_increasing :
  ~ (forall (sin : float -> float) (n : nat),
       (time (bench sin n) <? time (bench sin (S n)))%float = true).
Proof.
  intros H. apply (no_endless_increase accumulated).
  intros n. rewrite <- !(bench_time (fun x => x)). apply H.
Qed.

(** A step of 0.005 is lost on an accumulator of 2^46. *)
Lemma step_absorbed :
  (70368744177664 + 0.005)%float = 70368744177664%float.
Proof. reflexivity. Qed.

(** In binary64 the accumulator never decreases, and it is never NaN. *)
Lemma accumulated_monotone (n : nat) :
  (accumulated n <=? accumulated (S n))%float = true.
Proof. apply (accumulate_monotone n). Qed.

(** C7, amended.  The accumulator is never reset or wrapped: an invocation
    only adds the step to it.  In exact arithmetic it is greater after every
    invocation than before it and exceeds every bound.  In binary64 it never
    decreases, and it is greater after each of the first million invocations
    than before it. *)
Theorem time_increases :
  (forall (T : ThreeTypes R) (L : @ThreeJS R exact T) (w : Window) (n : nat),
      (time (@run R exact T L w n) < time (@run R exact T L w (S n)))%R)
  /\ (forall (T : ThreeTypes R) (L : @ThreeJS R exact T) (w : Window) (B : R),
        exists n : nat, (B < time (@run R exact T L w n))%R)
  /\ (forall (sin : float -> float) (T : ThreeTypes float)
             (L : @ThreeJS float (binary64 sin) T) (w : Window) (n : nat),
        time (@run float (binary64 sin) T L w (S n))
        = (time (@run float (binary64 sin) T L w n) + 0.005)%float)
  /\ (forall (sin : float -> float) (T : ThreeTypes float)
             (L : @ThreeJS float (binary64 sin) T) (w : Window) (n : nat),
        (time (@run float (binary64 sin) T L w n)
         <=? time (@run float (binary64 sin) T L w (S n)))%float = true)
  /\ (forall (sin : float -> float) (T : ThreeTypes float)
             (L : @ThreeJS float (binary64 sin) T) (w : Window) (n : nat),
        (Z.of_nat n < session)%Z ->
        (time (@run float (binary64 sin) T L w n)
         <? time (@run float (binary64 sin) T L w (S n)))%float = true).
Proof.
  split; [|split; [|split; [|split]]].
  - intros T L w n. apply exact_time_increasing.
  - intros T L w B. apply exact_time_unbounded.
  - intros sin T L w n. exact (animate_time (run w n)).
  - intros sin T L w n. rewrite !binary64_time. apply accumulated_monotone.
  - intros sin T L w n Hn. rewrite !binary64_time.
    apply accumulated_increasing, Hn.
Qed.

(** ** The cube *)

(** C2, as the specification states it, fails in binary64: after 6 frames
    [cube.rotation.y] is 0.009000000000000001, the product of the
    accumulator 0.030000000000000002 and 0.3, and [(0.005 * 6) * 0.3] is
    0.009. *)
Lemma cube_rotation_not_closed_form :
  ~ (forall (sin : float -> float) (n : nat),
       vy <$> cube_rotation (bench sin n)
       = Some ((0.005 * frame_count n) * 0.3)%float).
Proof.
  intros H. specialize (H (fun x => x) 6%nat). vm_compute in H.
  revert H. apply Some_float_neq. reflexivity.
Qed.

(** C2, amended.  After every invocation of the frame updater the rotation
    of the cube about its vertical axis is [time * 0.3] and its tilt is
    [sin(time * 0.5) * 0.05], [time] being the accumulator; before the first
    invocation both are 0.  In exact arithmetic, where the accumulator is
    [0.005 * n], they are [(0.005 * n) * 0.3] and
    [sin((0.005 * n) * 0.5) * 0.05] after [n] invocations, for every [n]. *)
Theorem cube_rotation_after_frames :
  (forall (sin : float -> float) (T : ThreeTypes float)
          (L : @ThreeJS float (binary64 sin) T) (w : Window) (n : nat),
      let s := @run float (binary64 sin) T L w (S n) in
      cube_rotation s
      = Some (mkVector3 (sin (time s * 0.5) * 0.05) (time s * 0.3) 0)%float)
  /\ (forall (sin : float -> float) (T : ThreeTypes float)
             (L : @ThreeJS float (binary64 sin) T) (w : Window),
        cube_rotation (@run float (binary64 sin) T L w 0)
        = Some (mkVector3 0 0 0)%float)
  /\ (forall (T : ThreeTypes R) (L : @ThreeJS R exact T) (w : Window)
             (n : nat),
        let s := @run R exact T L w n in
        vy <$> cube_rotation s = Some (0.005 * INR n * 0.3)%R
        /\ vx <$> cube_rotation s = Some (sin (0.005 * INR n * 0.5) * 0.05)%R).
Proof.
  split; [|split].
  - intros sin T L w n. apply binary64_cube_rotation.
  - intros sin T L w. reflexivity.
  - intros T L w n. apply exact_cube_rotation.
Qed.

(** ** The accent sphere *)

(** With a [Math.sin] that returns these two sines, the sphere is at
    0.4059964006479445 after 6 frames, and the closed form gives
    0.40599640064794446. *)
Lemma sphere_height_at_frame_6 (sin : float -> float) :
  sin 0.060000000000000005%float = 0.0599640064794446%float ->
  sin 0.06%float = 0.059964006479444595%float ->
  sphere_height (bench sin 6) = Some 0.4059964006479445%float
  /\ (0.4 + sin ((0.005 * frame_count 6) * 2) * 0.1)%float
     = 0.40599640064794446%float.
Proof.
  intros Ha Hb. split.
  - unfold bench. rewrite (binary64_sphere_height sin _ 5). cbv zeta.
    rewrite binary64_time.
    replace (Nat.iter 6 (fun t => t + 0.005) 0 * 2)%float
      with 0.060000000000000005%float by (vm_compute; reflexivity).
    rewrite Ha. vm_compute. reflexivity.
  - replace ((0.005 * frame_count 6) * 2)%float with 0.06%float
      by (vm_compute; reflexivity).
    rewrite Hb. vm_compute. reflexivity.
Qed.

(** C3, as the specification states it, fails in binary64: the height of the
    sphere is not [0.4 + sin((0.005 * n) * 2) * 0.1] for every [n] whatever
    [Math.sin] is.  It differs after 6 frames when [Math.sin] rounds to
    nearest. *)
Lemma sphere_height_not_closed_form :
  ~ (forall (sin : float -> float) (n : nat),
       sphere_height (bench sin n)
       = Some (0.4 + sin ((0.005 * frame_count n) * 2) * 0.1)%float).
Proof.
  intros H. specialize (H sin_frame6 6%nat).
  destruct (sphere_height_at_frame_6 sin_frame6) as [Hs Hc];
    [reflexivity|reflexivity|].
  rewrite Hs, Hc in H. revert H. apply Some_float_neq. reflexivity.
Qed.

(** C3, amended.  After every invocation of the frame updater the height of
    the accent sphere is [0.4 + sin(time * 2) * 0.1], [time] being the
    accumulator; before the first invocation it is 0.4.  In binary64 the
    height lies in [0.3, 0.5] whenever [Math.sin] returns a value between -1
    and 1.  In exact arithmetic, where the accumulator is [0.005 * n], the
    height after [n] invocations is [0.4 + sin((0.005 * n) * 2) * 0.1] for
    every [n], and it lies in [0.3, 0.5]. *)
Theorem sphere_height_after_frames :
  (forall (sin : float -> float) (T : ThreeTypes float)
          (L : @ThreeJS float (binary64 sin) T) (w : Window) (n : nat),
      let s := @run float (binary64 sin) T L w (S n) in
      sphere_height s = Some (0.4 + sin (time s * 2) * 0.1)%float)
  /\ (forall (sin : float -> float) (T : ThreeTypes float)
             (L : @ThreeJS float (binary64 sin) T) (w : Window),
        sphere_height (@run float (binary64 sin) T L w 0) = Some 0.4%float)
  /\ (forall (sin : float -> float) (T : ThreeTypes float)
             (L : @ThreeJS float (binary64 sin) T) (w : Window) (n : nat),
        let s := @run float (binary64 sin) T L w (S n) in
        (-1 <=? sin (time s * 2))%float = true ->
        (sin (time s * 2) <=? 1)%float = true ->
        exists y : float,
          sphere_height s = Some y
          /\ (0.3 <=? y)%float = true /\ (y <=? 0.5)%float = true)
  /\ (forall (T : ThreeTypes R) (L : @ThreeJS R exact T) (w : Window)
             (n : nat),
        sphere_height (@run R exact T L w n)
        = Some (0.4 + sin (0.005 * INR n * 2) * 0.1)%R
        /\ (0.3 <= 0.4 + sin (0.005 * INR n * 2) * 0.1 <= 0.5)%R).
Proof.
  split; [|split; [|split]].
  - intros sin T L w n. apply binary64_sphere_height.
  - intros sin T L w. reflexivity.
  - intros sin T L w n s Hl Hu. eexists. split.
    + apply binary64_sphere_height.
    + apply hover_range64; assumption.
  - intros T L w n. split; [apply exact_sphere_height|apply hover_range].
Qed.

(** ** The aspect ratio *)

(** C5.  When the resize handler has run, the aspect ratio of the camera is
    the quotient of the width and the height of the window.  For a window of
    1024 by 768 it is 1024/768: the double 1.3333333333333333 in binary64,
    the fraction itself in exact arithmetic. *)
Theorem resize_aspect :
  (forall (num : Type) (N : JSNumber num) (T : ThreeTypes num)
          (L : @ThreeJS num N T) (w : Window) (s : State),
      aspect (camera (resize w s)) = (innerWidth w / innerHeight w)%js)
  /\ (forall (sin : float -> float) (T : ThreeTypes float)
             (L : @ThreeJS float (binary64 sin) T) (dpr : float) (s : State),
        aspect (camera
                  (@resize float (binary64 sin) T L
                           (mkWindow 1024%float 768%float dpr) s))
        = (1024 / 768)%float
        /\ (1024 / 768)%float = 1.3333333333333333%float)
  /\ (forall (T : ThreeTypes R) (L : @ThreeJS R exact T) (dpr : R) (s : State),
        aspect (camera
                  (@resize R exact T L (mkWindow 1024%R 768%R dpr) s))
        = (1024 / 768)%R).
Proof.
  split; [|split].
  - intros num N T L w s. reflexivity.
  - intros sin T L dpr s. split; reflexivity.
  - intros T L dpr s. reflexivity.
Qed.

(** ** The guarded parts of the theorems, at concrete frames *)

(** C1 at frame 6: within the session, the accumulator is close to the
    product. *)
Lemma time_after_frames_witness :
  (abs (Nat.iter 6 (fun t => t + 0.005) 0 - 0.005 * frame_count 6)
   <=? 1e-7)%float = true.
Proof.
  apply (proj1 (proj2 time_after_frames) 6%nat). reflexivity.
Defined.

(** C3 at frame 6, with the sine of the table: the sphere is in range. *)
Lemma sphere_height_after_frames_witness :
  exists y : float,
    sphere_height (bench sin_frame6 6) = Some y
    /\ (0.3 <=? y)%float = true /\ (y <=? 0.5)%float = true.
Proof.
  apply (proj1 (proj2 (proj2 sphere_height_after_frames))
           sin_frame6 (headless_types float) headless
           (@desktop float (binary64 sin_frame6)) 5%nat);
    reflexivity.
Defined.

(** C7 at frame 6: within the session, the accumulator grows. *)
Lemma time_increases_witness :
  (time (bench sin_frame6 6) <? time (bench sin_frame6 7))%float = true.
Proof.
  apply (proj2 (proj2 (proj2 (proj2 time_increases)))
           sin_frame6 (headless_types float) headless
           (@desktop float (binary64 sin_frame6)) 6%nat).
  reflexivity.
Defined.

(** C8 at startup: the first invocation leaves the ambient light, the first
    child of the scene, as it is. *)
Lemma animate_frame_witness :
  children (scene (bench sin_frame6 1)) !! 0%nat
  = children (scene (bench sin_frame6 0)) !! 0%nat.
Proof.
  destruct (@animate_frame float (binary64 sin_frame6) (headless_types float)
              headless (bench sin_frame6 0)) as (_ & _ & _ & _ & H & _).
  apply H; discriminate.
Defined.

(** * Part III: the session, the renderer and the edges of the arithmetic *)

(** ** The event loop *)

Section Session.
Context {num : Type} `{!JSNumber num} `{!ThreeTypes num} `{!ThreeJS num}.
Local Open Scope js_scope.

Lemma dispatch_snoc (evs : list (Event (num:=num))) (e : Event) (s : State) :
  dispatch (evs ++ [e]) s = handle e (dispatch evs s).
Proof. unfold dispatch. rewrite foldl_app. reflexivity. Qed.

Lemma refreshes_snoc (evs : list (Event (num:=num))) (e : Event) :
  refreshes (evs ++ [e]) =
  (if is_refresh e then S (refreshes evs) else refreshes evs).
Proof.
  unfold refreshes. rewrite filter_app, length_app.
  destruct e; cbn [is_refresh];
    [rewrite filter_cons_True by reflexivity
    |rewrite filter_cons_False by discriminate];
    rewrite filter_nil; cbn [length]; lia.
Qed.

Lemma last_window_snoc (w0 : Window) (evs : list (Event (num:=num)))
      (e : Event) :
  last_window w0 (evs ++ [e]) =
  match e with
  | Refresh => last_window w0 evs
  | Resized w => w
  end.
Proof. unfold last_window. rewrite foldl_app. reflexivity. Qed.

Lemma frames_animate (n : nat) (s : State) :
  frames n (animate s) = frames (S n) s.
Proof. unfold frames. rewrite Nat.iter_succ_r. reflexivity. Qed.

Lemma animate_camera (s : State) :
  camera (animate s) = (orbit_update (controls s) (camera s)).2.
Proof. unfold animate. destruct (orbit_update _ _). reflexivity. Qed.


Lemma animate_renderer (s : State) :
  let r := renderer s in
  renderer (animate s) =
  mkRenderer (antialias r) (alpha r) (size r) (pixelRatio r)
             (useLegacyLights r) (shadowMap_enabled r) (shadowMap_type r)
             (outputColorSpace r) (toneMapping r) (toneMappingExposure r)
             (gl_render r (scene (animate s)) (camera (animate s))).
Proof. unfold animate. destruct (orbit_update _ _). reflexivity. Qed.

(** Time and scene after a run of events are those after its refreshes. *)
Lemma dispatch_pose (evs : list (Event (num:=num))) (s : State) :
  time (dispatch evs s) = time (frames (refreshes evs) s)
  /\ scene (dispatch evs s) = scene (frames (refreshes evs) s).
Proof.
  induction evs as [|e evs IH] using rev_ind; [split; reflexivity|].
  rewrite dispatch_snoc, refreshes_snoc. destruct IH as [IHt IHs].
  destruct e as [|w]; cbn [handle is_refresh].
  - rewrite frames_S, !animate_time, !animate_scene, IHt, IHs.
    split; reflexivity.
  - split; [exact IHt|exact IHs].
Qed.

(** X1.  A resize is invisible to the animation.  After any sequence of
    display refreshes and resizes, from any state, the time accumulator and
    the scene graph are what the refreshes alone would have left: it is the
    number of frames that counts, not where the resizes fell. *)
Theorem animation_ignores_resizes
  (evs : list (Event (num:=num))) (s : State) :
  time (dispatch evs s) = time (frames (refreshes evs) s)
  /\ scene (dispatch evs s) = scene (frames (refreshes evs) s).
Proof. apply dispatch_pose. Qed.

(** The time and the scene at any moment of a session. *)
Lemma session_pose (w0 : Window) (evs : list (Event (num:=num))) :
  let s := session_state w0 evs in
  time s = Nat.iter (S (refreshes evs)) (fun t => t + lit 0.005) (lit 0)
  /\ scene s =
     mkScene 0x1a1d28 (Some (mkFog 0x1a1d28 (lit 10) (lit 35)))
             (children_at (time s)).
Proof.
  cbv zeta. unfold session_state, main.
  destruct (dispatch_pose evs (animate (build w0))) as [Ht Hs].
  rewrite frames_animate in Ht, Hs.
  fold (run w0 (S (refreshes evs))) in Ht, Hs.
  rewrite Hs, Ht. split; [apply time_run|apply scene_run].
Qed.

(** X2.  At every moment of a session, whatever refreshes and resizes the
    host has delivered, the scene is a function of the time accumulator
    alone: the background, the fog and the twelve objects of startup, in
    their order and as the script built them, but for the rotation of the
    cube about x and y and the height of the sphere, which are the ones of
    the current time.  The accumulator is the sum of one step for the call
    the script makes itself and one for each refresh. *)
Theorem session_scene (w0 : Window) (evs : list (Event (num:=num))) :
  let s := session_state w0 evs in
  time s = Nat.iter (S (refreshes evs)) (fun t => t + lit 0.005) (lit 0)
  /\ scene s =
     mkScene 0x1a1d28 (Some (mkFog 0x1a1d28 (lit 10) (lit 35)))
             (children_at (time s)).
Proof. apply session_pose. Qed.

Lemma session_cube_rotation (w0 : Window) (evs : list (Event (num:=num))) :
  let s := session_state w0 evs in
  cube_rotation s =
  Some (mkVector3 (num_sin (time s * lit 0.5) * lit 0.05)
                  (time s * lit 0.3) (lit 0)).
Proof.
  cbv zeta. unfold cube_rotation.
  rewrite (proj2 (session_pose w0 evs)). reflexivity.
Qed.

(** *** The renderer *)

Lemma handle_settings (e : Event) (s : State) :
  settings (renderer (handle e s)) = settings (renderer s).
Proof.
  destruct e as [|w]; cbn [handle]; [|reflexivity].
  rewrite animate_renderer. reflexivity.
Qed.

Lemma dispatch_settings (evs : list (Event (num:=num))) (s : State) :
  settings (renderer (dispatch evs s)) = settings (renderer s).
Proof.
  induction evs as [|e evs IH] using rev_ind; [reflexivity|].
  rewrite dispatch_snoc, handle_settings. exact IH.
Qed.

Lemma dispatch_size (w0 : Window) (evs : list (Event (num:=num)))
      (s : State) :
  size (renderer s) = (innerWidth w0, innerHeight w0) ->
  size (renderer (dispatch evs s)) =
  (innerWidth (last_window w0 evs), innerHeight (last_window w0 evs)).
Proof.
  intros H0. induction evs as [|e evs IH] using rev_ind; [exact H0|].
  rewrite dispatch_snoc, last_window_snoc. destruct e as [|w]; cbn [handle].
  - rewrite animate_renderer. exact IH.
  - reflexivity.
Qed.

(** The settings of the renderer at any moment of a session are those of
    startup. *)
Lemma session_settings (w0 : Window) (evs : list (Event (num:=num))) :
  let r := renderer (session_state w0 evs) in
  antialias r = true /\ alpha r = false
  /\ pixelRatio r = num_min (devicePixelRatio w0) (lit 2)
  /\ useLegacyLights r = false /\ shadowMap_enabled r = true
  /\ toneMappingExposure r = lit 1.2.
Proof.
  cbv zeta. unfold session_state.
  pose proof (dispatch_settings evs (main w0)) as H.
  unfold main in H at 2. rewrite animate_renderer in H.
  unfold settings in H. cbn in H.
  injection H as H1 H2 H3 H4 H5 H6. repeat split; assumption.
Qed.

(** The output size at any moment of a session. *)
Lemma session_size (w0 : Window) (evs : list (Event (num:=num))) :
  size (renderer (session_state w0 evs)) =
  (innerWidth (last_window w0 evs), innerHeight (last_window w0 evs)).
Proof.
  unfold session_state. apply dispatch_size.
  unfold main. rewrite animate_renderer. reflexivity.
Qed.

(** X3.  At every moment of a session the output size of the renderer is
    the size of the window as the last resize reported it, or as it was at
    startup if there was none; a frame does not change it.  The other
    settings of the renderer are written once, at startup, and stay: the
    pixel ratio is the one of the display at startup, capped at 2, and does
    not follow the window. *)
Theorem renderer_through_session
  (w0 : Window) (evs : list (Event (num:=num))) :
  let r := renderer (session_state w0 evs) in
  let w := last_window w0 evs in
  size r = (innerWidth w, innerHeight w)
  /\ pixelRatio r = num_min (devicePixelRatio w0) (lit 2)
  /\ antialias r = true /\ alpha r = false
  /\ useLegacyLights r = false
  /\ shadowMap_enabled r = true
  /\ toneMappingExposure r = lit 1.2.
Proof.
  cbv zeta. split; [apply session_size|].
  destruct (session_settings w0 evs) as (H1 & H2 & H3 & H4 & H5 & H6).
  repeat split; assumption.
Qed.

(** *** The camera *)

Lemma handle_lens (e : Event) (s : State) :
  orbit_keeps_lens ->
  lens (camera (handle e s)) =
  match e with
  | Refresh => lens (camera s)
  | Resized w =>
      let a := innerWidth w / innerHeight w in
      (fov (camera s), a, near (camera s), far (camera s),
       makePerspective (fov (camera s)) a (near (camera s)) (far (camera s)))
  end.
Proof.
  intros HL. destruct e as [|w]; cbn [handle]; [|reflexivity].
  rewrite animate_camera. apply HL.
Qed.

(** The projection at any moment of a session, under controls that leave it
    alone. *)
Lemma session_lens (w0 : Window) (evs : list (Event (num:=num))) :
  orbit_keeps_lens ->
  lens (camera (session_state w0 evs)) =
  let w := last_window w0 evs in
  let a := innerWidth w / innerHeight w in
  (lit 50, a, lit 0.1, lit 100,
   makePerspective (lit 50) a (lit 0.1) (lit 100)).
Proof.
  intros HL. unfold session_state.
  induction evs as [|e evs IH] using rev_ind.
  - unfold dispatch, main. cbn [foldl]. rewrite animate_camera, HL.
    reflexivity.
  - rewrite dispatch_snoc, last_window_snoc, (handle_lens _ _ HL).
    destruct e as [|w]; [exact IH|].
    cbv zeta in IH |- *. unfold lens in IH. injection IH as -> _ -> -> _.
    reflexivity.
Qed.

(** X4.  Provided [controls.update()] leaves the projection of the camera
    alone, the projection matrix is never stale: at every moment of a
    session the aspect ratio of the camera is width / height of the window
    as last reported, the field of view and the near and far planes are
    those of startup (50, 0.1 and 100), and the projection matrix is the
    one computed from these four. *)
Theorem projection_follows_window
  (w0 : Window) (evs : list (Event (num:=num))) :
  orbit_keeps_lens ->
  let c := camera (session_state w0 evs) in
  let w := last_window w0 evs in
  let a := innerWidth w / innerHeight w in
  aspect c = a
  /\ fov c = lit 50 /\ near c = lit 0.1 /\ far c = lit 100
  /\ projectionMatrix c = makePerspective (lit 50) a (lit 0.1) (lit 100).
Proof.
  intros HL. cbv zeta.
  pose proof (session_lens w0 evs HL) as Hinv.
  cbv zeta in Hinv. unfold lens in Hinv. injection Hinv as -> -> -> -> ->.
  repeat split.
Qed.

(** *** The resize handler, composed *)

Lemma resize_resizes (w : Window) (ws : list (Window (num:=num)))
      (s : State) :
  resize w (dispatch (Resized <$> ws) s) = resize w s.
Proof.
  induction ws as [|w' ws IH] using rev_ind; [reflexivity|].
  rewrite fmap_app. change (Resized <$> [w']) with [Resized w'].
  rewrite dispatch_snoc. cbn [handle]. exact IH.
Qed.

(** X5.  Of a burst of resizes only the last counts: whatever sizes the
    window went through, the state is the one a single resize to the last
    size would have left.  (Idempotence is the case of two equal sizes.) *)
Theorem resizes_collapse
  (ws : list (Window (num:=num))) (w : Window) (s : State) :
  dispatch (Resized <$> (ws ++ [w])) s = resize w s.
Proof.
  rewrite fmap_app. change (Resized <$> [w]) with [Resized w].
  rewrite dispatch_snoc. cbn [handle]. apply resize_resizes.
Qed.

(** X6.  Provided [controls.update()] leaves the projection of the camera
    alone, a resize that reports the size the window already has changes
    nothing, at any moment of a session: the camera and the renderer are
    constructed, and kept by every frame, in the state the resize handler
    puts them in. *)
Theorem resize_without_change
  (w0 : Window) (evs : list (Event (num:=num))) :
  orbit_keeps_lens ->
  resize (last_window w0 evs) (session_state w0 evs) = session_state w0 evs.
Proof.
  intros HL.
  pose proof (session_lens w0 evs HL) as Hl.
  pose proof (session_size w0 evs) as Hs.
  cbv zeta in Hl. unfold lens in Hl.
  destruct (session_state w0 evs) as [t sc c r ctl].
  destruct c as [f a n fr p pm].
  destruct r as [r1 r2 sz r4 r5 r6 r7 r8 r9 r10 g].
  cbn in Hl, Hs. injection Hl as -> -> -> -> ->. subst sz.
  reflexivity.
Qed.

(** *** The order of the calls in a frame *)


End Session.

(** ** Comparisons of doubles *)

Lemma SFcompare_antisym (x y : spec_float) :
  SFcompare y x = CompOpp <$> SFcompare x y.
Proof.
  destruct x as [sx|sx| |sx mx ex], y as [sy|sy| |sy my ey];
    try reflexivity;
    try (destruct sx; reflexivity); try (destruct sy; reflexivity);
    try (destruct sx, sy; reflexivity).
  cbn. f_equal. destruct sx, sy; try reflexivity.
  - rewrite (Z.compare_antisym ex ey).
    destruct (ex ?= ey)%Z; try reflexivity. cbn.
    rewrite (Pos.compare_cont_antisym mx my Eq). reflexivity.
  - rewrite (Z.compare_antisym ex ey).
    destruct (ex ?= ey)%Z; try reflexivity. cbn.
    rewrite (Pos.compare_cont_antisym mx my Eq). reflexivity.
Qed.

Lemma SFcompare_refl (x : spec_float) :
  x <> S754_nan -> SFcompare x x = Some Eq.
Proof.
  destruct x as [s|s| |s m e]; intros H; try congruence;
    try reflexivity; try (destruct s; reflexivity).
  cbn. rewrite Z.compare_refl.
  change (Pos.compare_cont Eq m m) with (Pos.compare m m).
  rewrite Pos.compare_refl. destruct s; reflexivity.
Qed.

(** Two doubles that compare equal are the same double, or both are zero. *)
Lemma SFcompare_Eq (x y : spec_float) :
  SFcompare x y = Some Eq ->
  x = y \/ (exists s s', x = S754_zero s /\ y = S754_zero s').
Proof.
  destruct x as [sx|sx| |sx mx ex], y as [sy|sy| |sy my ey]; cbn;
    try discriminate; try (destruct sx; discriminate);
    try (destruct sy; discriminate).
  - intros _. right. eauto.
  - destruct sx, sy; try discriminate; intros _; left; reflexivity.
  - intros H. left.
    assert (Hc : (ex ?= ey)%Z = Eq /\ Pos.compare mx my = Eq /\ sx = sy).
    { change (Pos.compare_cont Eq mx my) with (Pos.compare mx my) in H.
      destruct sx, sy; try discriminate;
        destruct (ex ?= ey)%Z; try discriminate;
        destruct (Pos.compare mx my); try discriminate; repeat split. }
    destruct Hc as (He & Hm & Hs).
    apply Z.compare_eq in He. apply Pos.compare_eq in Hm. congruence.
Qed.

Lemma is_nan_spec (x : float) :
  is_nan x = true <-> Prim2SF x = S754_nan.
Proof.
  unfold is_nan. rewrite FloatAxioms.eqb_spec. unfold SFeqb. split.
  - intros H. destruct (Prim2SF x) eqn:Hx; try reflexivity;
      rewrite SFcompare_refl in H by discriminate; discriminate H.
  - intros ->. reflexivity.
Qed.

Lemma is_nan_false (x : float) :
  is_nan x = false <-> Prim2SF x <> S754_nan.
Proof.
  rewrite <- is_nan_spec. destruct (is_nan x); split; congruence.
Qed.

Lemma leb_not_nan (a b : float) :
  (a <=? b)%float = true -> is_nan a = false /\ is_nan b = false.
Proof.
  rewrite leb_spec, !is_nan_false. unfold SFleb.
  destruct (Prim2SF a), (Prim2SF b); cbn; try discriminate;
    split; discriminate.
Qed.

(** Of two doubles, neither of them NaN, one is below the other or they
    compare equal. *)
Lemma float_trichotomy (a b : float) :
  is_nan a = false -> is_nan b = false ->
  ((a <? b)%float = true /\ (b <? a)%float = false /\ (a <=? b)%float = true)
  \/ ((b <? a)%float = true /\ (a <? b)%float = false
      /\ (a <=? b)%float = false /\ (b <=? a)%float = true)
  \/ ((a <? b)%float = false /\ (b <? a)%float = false
      /\ (a <=? b)%float = true /\ (b <=? a)%float = true
      /\ SFcompare (Prim2SF a) (Prim2SF b) = Some Eq).
Proof.
  rewrite !is_nan_false, !ltb_spec, !leb_spec. unfold SFltb, SFleb.
  intros Ha Hb. rewrite (SFcompare_antisym (Prim2SF a) (Prim2SF b)).
  destruct (SFcompare (Prim2SF a) (Prim2SF b)) as [[| |]|] eqn:Hc; cbn.
  - right. right. repeat split.
  - left. repeat split.
  - right. left. repeat split.
  - exfalso. destruct (Prim2SF a), (Prim2SF b); cbn in Hc; congruence.
Qed.

Lemma SF_two : Prim2SF 2%float = S754_finite false 4503599627370496 (-51).
Proof. vm_compute. reflexivity. Qed.

(** ** The pixel ratio *)

(** [Math.min(a, 2)] *)
Lemma min_cap (a : float) :
  (is_nan a = true -> Binary64.min a 2 = nan)
  /\ (is_nan a = false -> (Binary64.min a 2 <=? 2)%float = true)
  /\ ((a <=? 2)%float = true -> Binary64.min a 2 = a)
  /\ ((2 <=? a)%float = true -> Binary64.min a 2 = 2%float).
Proof.
  assert (N2 : is_nan 2 = false) by reflexivity.
  assert (Heq : SFcompare (Prim2SF a) (Prim2SF 2) = Some Eq -> a = 2%float).
  { intros Hc. apply Prim2SF_inj.
    destruct (SFcompare_Eq _ _ Hc) as [H|(s & s' & _ & H)]; [exact H|].
    rewrite SF_two in H. discriminate H. }
  unfold Binary64.min. rewrite N2, orb_false_r.
  split; [|split; [|split]].
  - intros ->. reflexivity.
  - intros Ha. rewrite Ha.
    destruct (float_trichotomy a 2 Ha N2)
      as [(H1 & H2 & H3)|[(H1 & H2 & H3 & H4)|(H1 & H2 & H3 & H4 & H5)]];
      rewrite ?H1, ?H2; try assumption; try reflexivity.
    rewrite (Heq H5). reflexivity.
  - intros H. destruct (leb_not_nan _ _ H) as [Ha _]. rewrite Ha.
    destruct (float_trichotomy a 2 Ha N2)
      as [(H1 & H2 & H3)|[(H1 & H2 & H3 & H4)|(H1 & H2 & H3 & H4 & H5)]];
      rewrite ?H1, ?H2; try reflexivity; try congruence.
    rewrite (Heq H5). reflexivity.
  - intros H. destruct (leb_not_nan _ _ H) as [_ Ha]. rewrite Ha.
    destruct (float_trichotomy a 2 Ha N2)
      as [(H1 & H2 & H3)|[(H1 & H2 & H3 & H4)|(H1 & H2 & H3 & H4 & H5)]];
      rewrite ?H1, ?H2; try reflexivity.
    + destruct (float_trichotomy 2 a N2 Ha)
        as [(G1 & G2 & G3)|[(G1 & G2 & G3 & G4)|(G1 & G2 & G3 & G4 & G5)]];
        congruence.
    + rewrite (Heq H5). reflexivity.
Qed.

(** X8.  The pixel ratio of the renderer is the one of the display capped
    at 2, at startup and for the rest of the session.  In binary64: if the
    display reports at most 2 the renderer has that ratio, if it reports 2
    or more the renderer has 2, so that the ratio is never above 2 unless
    the display reports NaN, in which case [Math.min] makes it NaN.  In
    exact arithmetic it is the smaller of the ratio of the display and 2. *)
Theorem pixel_ratio_capped :
  (forall (sin : float -> float) (T : ThreeTypes float)
          (L : @ThreeJS float (binary64 sin) T) (w0 : Window)
          (evs : list Event),
      let dpr := devicePixelRatio w0 in
      let r := pixelRatio
                 (renderer (@session_state float (binary64 sin) T L w0 evs)) in
      (is_nan dpr = true -> r = nan)
      /\ (is_nan dpr = false -> (r <=? 2)%float = true)
      /\ ((dpr <=? 2)%float = true -> r = dpr)
      /\ ((2 <=? dpr)%float = true -> r = 2%float))
  /\ (forall (T : ThreeTypes R) (L : @ThreeJS R exact T) (w0 : Window)
             (evs : list Event),
        let dpr := devicePixelRatio w0 in
        let r := pixelRatio (renderer (@session_state R exact T L w0 evs)) in
        (r <= 2)%R /\ ((dpr <= 2)%R -> r = dpr) /\ ((2 <= dpr)%R -> r = 2%R)).
Proof.
  split.
  - intros sin T L w0 evs dpr r.
    assert (Hr : r = Binary64.min dpr 2)
      by exact (proj1 (proj2 (proj2
                  (@session_settings float (binary64 sin) T L w0 evs)))).
    rewrite Hr. apply min_cap.
  - intros T L w0 evs dpr r.
    assert (Hr : r = Rmin dpr 2).
    { unfold r.
      rewrite (proj1 (proj2 (proj2 (@session_settings R exact T L w0 evs)))).
      cbn. f_equal. unfold Q2R. cbn. lra. }
    rewrite Hr. split; [apply Rmin_r|]. split; intros H.
    + apply Rmin_left, H.
    + apply Rmin_right, H.
Qed.

(** ** A window without height *)

Lemma div_by_zero (a : float) :
  (0 <? a)%float = true -> (a / 0)%float = infinity.
Proof.
  rewrite ltb_spec. unfold SFltb. intros H.
  apply Prim2SF_inj. rewrite div_spec.
  change (Prim2SF 0) with (S754_zero false) in *.
  destruct (Prim2SF a) as [s|[|]| |[|] m e]; cbn in H; try discriminate H;
    reflexivity.
Qed.

(** X9.  The script divides by the height of the window without looking at
    it.  In binary64, for a window of height 0 the aspect ratio of the
    camera is +Infinity when the width is positive and NaN when the width
    is 0 too, after a resize and at startup alike; nothing is raised. *)
Theorem window_without_height
  (sin : float -> float) (T : ThreeTypes float)
  (L : @ThreeJS float (binary64 sin) T) (width dpr : float) (s : State) :
  let w := mkWindow width 0%float dpr in
  ((0 <? width)%float = true ->
     aspect (camera (@resize float (binary64 sin) T L w s)) = infinity
     /\ aspect (camera (@build float (binary64 sin) T L w)) = infinity)
  /\ (width = 0%float ->
        aspect (camera (@resize float (binary64 sin) T L w s)) = nan
        /\ aspect (camera (@build float (binary64 sin) T L w)) = nan).
Proof.
  cbv zeta. split.
  - intros H. split; apply (div_by_zero width H).
  - intros ->. split; reflexivity.
Qed.

(** ** The tilt of the cube *)

Section Tilt.
Local Open Scope Z_scope.

(** Among valid negative doubles the greater magnitude is the lesser
    double. *)
Lemma canon_leb_neg (m1 m2 : positive) (e1 e2 : Z) :
  valid_binary (S754_finite true m1 e1) = true ->
  valid_binary (S754_finite true m2 e2) = true ->
  sval m1 e1 <= sval m2 e2 ->
  SFleb (S754_finite true m2 e2) (S754_finite true m1 e1) = true.
Proof.
  intros V1 V2 H.
  pose proof (canon_leb m1 m2 e1 e2 V1 V2 H) as Hp.
  unfold SFleb, SFcompare in Hp |- *.
  rewrite (Z.compare_antisym e1 e2).
  rewrite (Pos.compare_cont_antisym m2 m1 Eq). cbn [CompOpp].
  destruct (e1 ?= e2); cbn [CompOpp] in *; assumption.
Qed.

(** A double between -1 and 1 times a positive normal double [c] is at most
    [c] in magnitude. *)
Lemma SFmul_unit (x : spec_float) (mc : positive) (ec : Z) :
  match x with
  | S754_zero _ => True
  | S754_finite _ m e => -1074 <= e <= -52 /\ Zpos m <= 2 ^ (- e)
  | _ => False
  end ->
  valid_binary (S754_finite false mc ec) = true ->
  2 ^ 52 <= Zpos mc ->
  match SF64mul x (S754_finite false mc ec) with
  | S754_zero _ => True
  | S754_finite _ mr er => sval mr er <= sval mc ec
  | _ => False
  end.
Proof.
  intros Hx Vc Hn. pose proof (valid_canonical _ _ _ Vc) as (Rc & _ & _).
  destruct x as [s|s| |s m e]; try contradiction.
  - exact I.
  - destruct Hx as [He Hm]. unfold SF64mul, SFmul.
    pose proof (digits_upper (m * mc)) as Du.
    pose proof (Pos2Z.is_pos m) as Pm.
    assert (Hd : 53 <= Zpos (digits2_pos (m * mc))).
    { destruct (Z.le_gt_cases 53 (Zpos (digits2_pos (m * mc)))) as [|Hlt];
        [assumption|].
      assert (H52 : 2 ^ Zpos (digits2_pos (m * mc)) <= 2 ^ 52)
        by (apply Z.pow_le_mono_r; lia).
      set (D := 2 ^ Zpos (digits2_pos (m * mc))) in *.
      set (P := 2 ^ 52) in *.
      rewrite Pos2Z.inj_mul in Du. nia. }
    destruct (bra_le (xorb s false) (m * mc) (e + ec) mc ec)
      as [Hr|(mr & er & Hr & Hv)].
    + lia.
    + unfold fexp64. lia.
    + exact Vc.
    + unfold sval. rewrite Pos2Z.inj_mul.
      assert (HW : 2 ^ (ec + 2148) = 2 ^ (- e) * 2 ^ (e + ec + 2148))
        by (rewrite <- Z.pow_add_r by lia; f_equal; lia).
      rewrite HW.
      pose proof (Z.pow_pos_nonneg 2 (e + ec + 2148) ltac:(lia) ltac:(lia))
        as HP.
      set (W := 2 ^ (e + ec + 2148)) in *. set (T := 2 ^ (- e)) in *.
      assert (H1 : Zpos m * Zpos mc <= T * Zpos mc) by nia.
      assert (H2 : Zpos m * Zpos mc * W <= T * Zpos mc * W) by nia.
      assert (H3 : 0 < T * W) by nia.
      nia.
    + rewrite Hr. exact I.
    + rewrite Hr. exact Hv.
Qed.

Lemma SF_twentieth :
  Prim2SF 0.05%float = S754_finite false m_tenth (-57).
Proof. vm_compute. reflexivity. Qed.

Lemma SF_minus_twentieth :
  Prim2SF (-0.05)%float = S754_finite true m_tenth (-57).
Proof. vm_compute. reflexivity. Qed.

(** In binary64, whatever double between -1 and 1 the sine is, the tilt
    stays between -0.05 and 0.05. *)
Lemma tilt_range64 (s : float) :
  (-1 <=? s)%float = true -> (s <=? 1)%float = true ->
  (-0.05 <=? s * 0.05)%float = true /\ (s * 0.05 <=? 0.05)%float = true.
Proof.
  intros Hl Hu.
  rewrite leb_spec, SF_minus_one in Hl. rewrite leb_spec, SF_one in Hu.
  rewrite !leb_spec, SF_minus_twentieth, SF_twentieth.
  pose proof (Prim2SF_valid (s * 0.05)) as Vp.
  rewrite mul_spec, SF_twentieth in Vp |- *.
  assert (Vc : valid_binary (S754_finite false m_tenth (-57)) = true)
    by reflexivity.
  pose proof (SFmul_unit _ m_tenth (-57)
                (unit_range _ (Prim2SF_valid s) Hl Hu) Vc) as Hb.
  specialize (Hb ltac:(unfold m_tenth; lia)).
  destruct (SF64mul (Prim2SF s) (S754_finite false m_tenth (-57)))
    as [sr|sr| |sr mr er]; try contradiction.
  - destruct sr; split; reflexivity.
  - destruct sr.
    + split; [|reflexivity]. apply canon_leb_neg; assumption.
    + split; [reflexivity|]. apply canon_leb; assumption.
Qed.

End Tilt.

(** X10.  The tilt of the cube ([cube.rotation.x]) never leaves the
    interval [-0.05, 0.05], at any moment of a session: in binary64 whenever
    [Math.sin] returns a value between -1 and 1, and in exact arithmetic. *)
Theorem cube_tilt_range :
  (forall (sin : float -> float) (T : ThreeTypes float)
          (L : @ThreeJS float (binary64 sin) T) (w0 : Window)
          (evs : list Event),
      let s := @session_state float (binary64 sin) T L w0 evs in
      (-1 <=? sin (time s * 0.5))%float = true ->
      (sin (time s * 0.5) <=? 1)%float = true ->
      exists x : float,
        vx <$> cube_rotation s = Some x
        /\ (-0.05 <=? x)%float = true /\ (x <=? 0.05)%float = true)
  /\ (forall (T : ThreeTypes R) (L : @ThreeJS R exact T) (w0 : Window)
             (evs : list Event),
        let s := @session_state R exact T L w0 evs in
        exists x : R,
          vx <$> cube_rotation s = Some x /\ (-0.05 <= x <= 0.05)%R).
Proof.
  split.
  - intros sin T L w0 evs s Hl Hu. eexists. split.
    + unfold s.
      rewrite (@session_cube_rotation float (binary64 sin) T L). reflexivity.
    + apply tilt_range64; assumption.
  - intros T L w0 evs s. eexists. split.
    + unfold s. rewrite (@session_cube_rotation R exact T L). reflexivity.
    + cbn. unfold Q2R. cbn.
      match goal with
      | |- context [sin ?a] => pose proof (SIN_bound a) as [Hl Hu]
      end.
      lra.
Qed.

(** ** The accumulator comes to rest *)

(** Among the first [K] steps of a sequence of doubles, either every step
    goes up or one does not. *)
Lemma first_stall (f : nat -> float) (K : nat) :
  (forall n : nat, (n < K)%nat -> (f n <? f (S n))%float = true)
  \/ (exists n : nat, (n < K)%nat /\ (f n <? f (S n))%float = false).
Proof.
  induction K as [|K [IH|(n & Hn & Hf)]].
  - left. intros n Hn. lia.
  - destruct (f K <? f (S K))%float eqn:HK.
    + left. intros n Hn. destruct (decide (n = K)) as [->|Hne];
        [exact HK|apply IH; lia].
    + right. exists K. split; [lia|exact HK].
  - right. exists n. split; [lia|exact Hf].
Qed.

(** A sequence that goes up [K] times climbs [K] ranks. *)
Lemma climb (f : nat -> float) (K : nat) :
  (forall n : nat, (n < K)%nat -> (f n <? f (S n))%float = true) ->
  (Rank.rank (Prim2SF (f 0%nat)) + Z.of_nat K
   <= Rank.rank (Prim2SF (f K)))%Z.
Proof.
  induction K as [|K IH]; intros H; [lia|].
  specialize (IH ltac:(intros n Hn; apply H; lia)).
  specialize (H K ltac:(lia)). rewrite ltb_spec in H.
  apply rank_lt in H; try apply Prim2SF_valid. lia.
Qed.

(** There are not enough doubles to go up for ever: some step does not. *)
Lemma stall (f : nat -> float) :
  exists n : nat, (f n <? f (S n))%float = false.
Proof.
  destruct (first_stall f (Z.to_nat (2 * Rank.top + 1))) as [H|(n & _ & H)];
    [exfalso|exists n; exact H].
  apply climb in H.
  pose proof (rank_range _ (Prim2SF_valid (f 0%nat))) as H0.
  pose proof (rank_range _ (Prim2SF_valid (f (Z.to_nat (2 * Rank.top + 1)))))
    as H1.
  rewrite Z2Nat.id in H by (unfold Rank.top, Rank.two53; lia). lia.
Qed.

Lemma accumulated_S (n : nat) :
  accumulated (S n) = (accumulated n + 0.005)%float.
Proof. reflexivity. Qed.

(** There is a frame at which the step is lost on the accumulator. *)
Lemma accumulated_stalls :
  exists N : nat, accumulated (S N) = accumulated N.
Proof.
  destruct (stall accumulated) as [N HN]. exists N.
  pose proof (accumulated_monotone N) as Hle.
  destruct (leb_not_nan _ _ Hle) as [Na Nb].
  destruct (float_trichotomy _ _ Na Nb)
    as [(H1 & _)|[(_ & _ & H3 & _)|(_ & _ & _ & _ & Hc)]]; try congruence.
  destruct (SFcompare_Eq _ _ Hc) as [H|(s & s' & Hz & Hz')].
  - symmetry. apply Prim2SF_inj, H.
  - exfalso. rewrite accumulated_S in Hz'.
    rewrite <- (SF2Prim_Prim2SF (accumulated N)), Hz in Hz'.
    destruct s; vm_compute in Hz'; discriminate Hz'.
Qed.

(** From then on it is lost at every frame. *)
Lemma accumulated_rest (N n : nat) :
  accumulated (S N) = accumulated N -> (N <= n)%nat ->
  accumulated n = accumulated N.
Proof.
  intros HN Hn. induction Hn as [|n Hn IH]; [reflexivity|].
  rewrite accumulated_S, IH, <- accumulated_S. exact HN.
Qed.

Section Cap.
Local Open Scope Z_scope.

(** On valid doubles, what [<=?] tests is the order of the values. *)
Lemma leb_sval (m1 m2 : positive) (e1 e2 : Z) :
  valid_binary (S754_finite false m1 e1) = true ->
  valid_binary (S754_finite false m2 e2) = true ->
  SFleb (S754_finite false m1 e1) (S754_finite false m2 e2) = true ->
  sval m1 e1 <= sval m2 e2.
Proof.
  intros V1 V2 H.
  destruct (Z.le_gt_cases (sval m1 e1) (sval m2 e2)) as [|Hgt]; [assumption|].
  pose proof (canon_leb m2 m1 e2 e1 V2 V1 ltac:(lia)) as H'.
  unfold SFleb in H, H'.
  rewrite (SFcompare_antisym (S754_finite false m1 e1)) in H'.
  destruct (SFcompare (S754_finite false m1 e1) (S754_finite false m2 e2))
    as [[| |]|] eqn:Hc; try discriminate.
  destruct (SFcompare_Eq _ _ Hc) as [Heq|(s & s' & Heq & _)];
    [|discriminate Heq].
  injection Heq as -> ->. lia.
Qed.

(** The sum of a double that is at most [g] and a positive double [c] that
    is less than half the distance from [g] to the next double is at most
    [g]. *)
Lemma SFadd_cap (x : spec_float) (mc : positive) (ec : Z)
      (mg : positive) (eg : Z) :
  valid_binary x = true -> nonneg x ->
  valid_binary (S754_finite false mc ec) = true ->
  valid_binary (S754_finite false mg eg) = true ->
  valid_binary (SF64add x (S754_finite false mc ec)) = true ->
  SFleb x (S754_finite false mg eg) = true ->
  sval mc ec <= sval mg eg ->
  2 * sval mc ec < 2 ^ (eg + 2148) ->
  SFleb (SF64add x (S754_finite false mc ec)) (S754_finite false mg eg) = true.
Proof.
  intros Vx Nx Vc Vg Vr Hx Hc Hh.
  destruct x as [s|[|]| |[|] mt et]; try contradiction; cbn in Vr |- *.
  - apply canon_leb; assumption.
  - discriminate Hx.
  - apply leb_sval in Hx; [|assumption..].
    unfold SF64add, SFadd in *. cbn [cond_Zopp] in *.
    pose proof (valid_canonical _ _ _ Vx) as (Rt & _ & _).
    pose proof (valid_canonical _ _ _ Vc) as (Rc & _ & _).
    set (ez := Z.min et ec) in *.
    destruct (shl_align_value mt et ez ltac:(lia)) as [Ha _].
    destruct (shl_align_value mc ec ez ltac:(lia)) as [Hb _].
    set (a := fst (shl_align mt et ez)) in *.
    set (b := fst (shl_align mc ec ez)) in *.
    change (Zpos a + Zpos b) with (Zpos (a + b)) in *.
    cbn [binary_normalize] in *.
    destruct (binary_round_le (a + b) ez mg eg ltac:(lia) Vg)
      as [Hr|(mr & er & Hr & Hv)].
    + assert (Hsum : sval (a + b) ez = sval mt et + sval mc ec).
      { unfold sval. rewrite Pos2Z.inj_add, Ha, Hb.
        assert (HT : 2 ^ (et + 2148) = 2 ^ (et - ez) * 2 ^ (ez + 2148))
          by (rewrite <- Z.pow_add_r by lia; f_equal; lia).
        assert (HC : 2 ^ (ec + 2148) = 2 ^ (ec - ez) * 2 ^ (ez + 2148))
          by (rewrite <- Z.pow_add_r by lia; f_equal; lia).
        rewrite HT, HC. lia. }
      rewrite Hsum. unfold sval in Hx |- *. unfold sval in Hh. lia.
    + rewrite Hr. reflexivity.
    + rewrite Hr in Vr |- *. apply canon_leb; assumption.
Qed.

End Cap.

Lemma SF_rest :
  Prim2SF 70368744177664%float = S754_finite false 4503599627370496 (-6).
Proof. vm_compute. reflexivity. Qed.

(** The accumulator never passes 2^46. *)
Lemma accumulated_capped (n : nat) :
  (accumulated n <=? 70368744177664)%float = true.
Proof.
  induction n as [|n IH]; [reflexivity|].
  pose proof (proj2 (accumulate_monotone n)) as Nn. cbv beta in Nn.
  fold (accumulated n) in Nn.
  rewrite accumulated_S. rewrite leb_spec in IH |- *.
  rewrite SF_rest in IH |- *.
  pose proof (Prim2SF_valid (accumulated n + 0.005)) as Vr.
  rewrite add_spec, step_spec in Vr |- *.
  apply SFadd_cap; try assumption; try reflexivity.
  - apply Prim2SF_valid.
  - vm_compute. discriminate.
Qed.

Lemma nonneg_leb (x : float) :
  nonneg (Prim2SF x) -> (0 <=? x)%float = true.
Proof.
  rewrite leb_spec. change (Prim2SF 0) with (S754_zero false).
  destruct (Prim2SF x) as [[|]|[|]| |[|] ? ?]; try contradiction;
    reflexivity.
Qed.

(** X11.  In binary64 the animation comes to rest.  The time accumulator
    stays between 0 and 2^46 = 70368744177664, and there is a frame from
    which on it keeps one value: the step is lost in the rounding of the
    sum.  From that frame on the scene does not change either: the cube and
    the sphere stand still. *)
Theorem animation_comes_to_rest
  (sin : float -> float) (T : ThreeTypes float)
  (L : @ThreeJS float (binary64 sin) T) (w : Window) :
  (forall n : nat,
      (0 <=? time (@run float (binary64 sin) T L w n))%float = true
      /\ (time (@run float (binary64 sin) T L w n) <=? 70368744177664)%float
         = true)
  /\ exists N : nat, forall n : nat, (N <= n)%nat ->
       time (@run float (binary64 sin) T L w n)
       = time (@run float (binary64 sin) T L w N)
       /\ scene (@run float (binary64 sin) T L w n)
          = scene (@run float (binary64 sin) T L w N).
Proof.
  split.
  - intros n. rewrite binary64_time. split.
    + apply nonneg_leb. apply (proj2 (accumulate_monotone n)).
    + apply accumulated_capped.
  - destruct accumulated_stalls as [N HN]. exists (S N). intros n Hn.
    assert (Ht : time (@run float (binary64 sin) T L w n)
                 = time (@run float (binary64 sin) T L w (S N))).
    { rewrite !binary64_time. fold (accumulated n). fold (accumulated (S N)).
      rewrite HN. apply accumulated_rest; [exact HN|lia]. }
    split; [exact Ht|].
    destruct n as [|n]; [lia|].
    rewrite !(@scene_run float (binary64 sin) T L), Ht. reflexivity.
Qed.

(** ** The turn of the cube

    Rounding to nearest keeps the order of the numbers rounded, so the turn
    of the cube, [time * 0.3], follows the accumulator. *)

Section Nearest.
Local Open Scope Z_scope.

Lemma shr_1_s (s : shr_record) :
  shr_s (shr_1 s) = shr_r s || shr_s s.
Proof. destruct s as [[|[p|p|]|[p|p|]] r st]; reflexivity. Qed.

(** Two runs of [p] shifts that leave no sticky bit cut off [2p - 1] zero
    digits and a zero round bit. *)
Lemma sticky_twice (p : positive) (s : shr_record) :
  (forall s' : shr_record, 0 <= shr_m s' ->
     shr_s (SpecFloat.iter_pos shr_1 p s') = false ->
     shr_s s' = false /\ shr_r s' = false
     /\ exists c, shr_m s' = 2 ^ (Zpos p - 1) * c) ->
  0 <= shr_m s ->
  shr_s (SpecFloat.iter_pos shr_1 p (SpecFloat.iter_pos shr_1 p s)) = false ->
  shr_s s = false /\ shr_r s = false
  /\ exists c, shr_m s = 2 ^ (2 * Zpos p - 1) * c.
Proof.
  intros IH Hs H.
  destruct (iter_shr_m p s Hs) as [Em Nm].
  destruct (IH _ Nm H) as (S1 & R1 & c1 & C1).
  destruct (IH _ Hs S1) as (S0 & R0 & c0 & C0).
  split; [exact S0|]. split; [exact R0|].
  rewrite iter_shr_r in R1 by exact Hs.
  apply Z.testbit_false in R1; [|lia].
  rewrite Em in C1.
  pose proof (Z.pow_pos_nonneg 2 (Zpos p - 1) ltac:(lia) ltac:(lia)) as HP.
  assert (H2p : 2 ^ Zpos p = 2 * 2 ^ (Zpos p - 1)).
  { rewrite <- Z.pow_succ_r by lia. f_equal. lia. }
  assert (H22 : 2 ^ (2 * Zpos p - 1) = 2 ^ Zpos p * 2 ^ (Zpos p - 1)).
  { rewrite <- Z.pow_add_r by lia. f_equal. lia. }
  set (P := 2 ^ (Zpos p - 1)) in *. set (m := shr_m s) in *.
  (* m = P * c0 with c0 even, so m = 2P * b and b = P * c1 *)
  assert (Hc0 : m / P = c0).
  { rewrite C0. rewrite Z.mul_comm. apply Z.div_mul. lia. }
  rewrite Hc0 in R1.
  assert (Hb : c0 = 2 * (c0 / 2)).
  { pose proof (Z.div_mod c0 2 ltac:(lia)). lia. }
  assert (Hq : m / 2 ^ Zpos p = c0 / 2).
  { rewrite H2p, (Z.mul_comm 2 P), <- Z.div_div by lia. rewrite Hc0.
    reflexivity. }
  rewrite Hq in C1. exists c1. rewrite H22, H2p, C0.
  rewrite Hb, C1. ring.
Qed.

(** [p] shifts that leave no sticky bit cut off [p - 1] zero digits. *)
Lemma iter_shr_s (p : positive) (s : shr_record) :
  0 <= shr_m s ->
  shr_s (SpecFloat.iter_pos shr_1 p s) = false ->
  shr_s s = false /\ shr_r s = false
  /\ exists c, shr_m s = 2 ^ (Zpos p - 1) * c.
Proof.
  revert s. induction p as [p IH|p IH|]; intros s Hs H;
    cbn [SpecFloat.iter_pos] in H.
  - pose proof (shr_1_nonneg s Hs) as H1.
    destruct (sticky_twice p (shr_1 s) IH H1 H) as (S1 & R1 & c & C).
    rewrite shr_1_s in S1. apply orb_false_iff in S1. destruct S1 as [R0 S0].
    split; [exact S0|]. split; [exact R0|].
    rewrite shr_1_r in R1 by exact Hs. rewrite shr_1_m in C by exact Hs.
    exists c. change (Z.pos p~1 - 1) with (2 * Z.pos p).
    assert (H22 : 2 ^ (2 * Zpos p) = 2 * 2 ^ (2 * Zpos p - 1)).
    { rewrite <- Z.pow_succ_r by lia. f_equal. lia. }
    rewrite H22.
    pose proof (Z.div_mod (shr_m s) 2 ltac:(lia)) as D.
    rewrite Zmod_odd, R1 in D. lia.
  - change (Z.pos p~0 - 1) with (2 * Z.pos p - 1).
    apply (sticky_twice p s IH Hs H).
  - rewrite shr_1_s in H. apply orb_false_iff in H. destruct H as [R0 S0].
    split; [exact S0|]. split; [exact R0|].
    exists (shr_m s). change (2 ^ (1 - 1)) with 1. lia.
Qed.

(** A cut of [k] digits that leaves no sticky bit has cut off [k - 1]
    zeros below the round bit. *)
Lemma shr_fexp_sticky (m : positive) (e : Z) :
  e < fexp64 (Zpos (digits2_pos m) + e) ->
  exists mrs,
    shr_fexp prec emax (Zpos m) e loc_Exact
    = (mrs, fexp64 (Zpos (digits2_pos m) + e))
    /\ shr_m mrs = Zpos m / 2 ^ (fexp64 (Zpos (digits2_pos m) + e) - e)
    /\ shr_r mrs
       = Z.testbit (Zpos m) (fexp64 (Zpos (digits2_pos m) + e) - e - 1)
    /\ (shr_s mrs = false ->
        exists c,
          Zpos m = 2 ^ (fexp64 (Zpos (digits2_pos m) + e) - e - 1) * c).
Proof.
  intros H. unfold shr_fexp, shr. rewrite fexp_eq. cbn [Zdigits2].
  set (E := fexp64 (Zpos (digits2_pos m) + e)) in *.
  destruct (E - e) as [|p|p] eqn:Hk; try lia.
  eexists. split; [|split; [|split]].
  - f_equal. lia.
  - destruct (iter_shr_m p (shr_record_of_loc (Zpos m) loc_Exact)) as [Em _];
      [cbn; lia|]. rewrite Em. reflexivity.
  - rewrite iter_shr_r by (cbn; lia). reflexivity.
  - intros Hs. apply iter_shr_s in Hs; [|cbn; lia].
    destruct Hs as (_ & _ & c & Hc). exists c. exact Hc.
Qed.

(** The second cut of [binary_round_aux], on the rounded mantissa [n] at the
    exponent [E]. *)
Lemma second_cut (sx : bool) (n E : Z) :
  -1074 <= E -> 0 <= n <= 2 ^ 53 ->
  let r :=
    let '(mrs, e'') := shr_fexp prec emax n E loc_Exact in
    match shr_m mrs with
    | 0 => S754_zero sx
    | Zpos m0 =>
        if e'' <=? emax - prec then S754_finite sx m0 e''
        else S754_infinity sx
    | Zneg _ => S754_nan
    end in
  (n = 0 /\ r = S754_zero sx)
  \/ exists mr er,
       Zpos mr * 2 ^ (er - E) = n
       /\ (er = E \/ (er = E + 1 /\ n = 2 ^ 53))
       /\ r = if er <=? 971 then S754_finite sx mr er
              else S754_infinity sx.
Proof.
  intros HE Hn. cbv zeta. destruct n as [|pn|pn]; [left|right|lia].
  - split; [reflexivity|]. unfold shr_fexp, shr. rewrite fexp_eq.
    cbn [Zdigits2]. unfold fexp64.
    destruct (Z.max (0 + E - 53) (-1074) - E) eqn:Hz; try reflexivity. lia.
  - change (2 ^ 53) with 9007199254740992 in Hn.
    destruct (Z.eq_dec (Zpos pn) 9007199254740992) as [Htop|Hnot].
    + assert (Hd : Zpos (digits2_pos pn) = 54).
      { apply digits_unique. rewrite Htop. split; reflexivity. }
      assert (Hs2 : E < fexp64 (Zpos (digits2_pos pn) + E))
        by (rewrite Hd; unfold fexp64; lia).
      destruct (shr_fexp_shift pn E Hs2) as (mrs2 & Hshr2 & Hm2 & _).
      rewrite Hshr2.
      replace (fexp64 (Zpos (digits2_pos pn) + E)) with (E + 1) in *
        by (rewrite Hd; unfold fexp64; lia).
      replace (E + 1 - E) with 1 in Hm2 by lia. rewrite Htop in Hm2.
      change (9007199254740992 / 2 ^ 1) with (Zpos 4503599627370496) in Hm2.
      rewrite Hm2. exists 4503599627370496%positive, (E + 1).
      replace (E + 1 - E) with 1 by lia. split; [rewrite Htop; reflexivity|].
      split; [right; split; [reflexivity|exact Htop]|reflexivity].
    + assert (Hd : Zpos (digits2_pos pn) <= 53).
      { pose proof (digits_lower pn) as Dn.
        destruct (Z.le_gt_cases (Zpos (digits2_pos pn)) 53) as [|Hgt];
          [assumption|].
        assert (H53 : 2 ^ 53 <= 2 ^ (Zpos (digits2_pos pn) - 1))
          by (apply Z.pow_le_mono_r; lia).
        change (2 ^ 53) with 9007199254740992 in H53. lia. }
      assert (Hn2 : fexp64 (Zpos (digits2_pos pn) + E) <= E)
        by (unfold fexp64; lia).
      rewrite (shr_fexp_noshift pn E loc_Exact Hn2).
      cbn [shr_record_of_loc shr_m].
      exists pn, E. rewrite Z.sub_diag. change (2 ^ 0) with 1.
      split; [lia|]. split; [left; reflexivity|reflexivity].
Qed.

(** Rounding is to nearest: the result, a mantissa [n] at the exponent [E],
    is not more than half a unit of [E] below the number rounded. *)
Lemma bra_nearest (sx : bool) (m : positive) (e : Z) :
  let E := fexp64 (Zpos (digits2_pos m) + e) in
  let r := binary_round_aux prec emax sx (Zpos m) e loc_Exact in
  e <= E ->
  exists n : Z,
    2 * Zpos m <= (2 * n + 1) * 2 ^ (E - e)
    /\ ((n = 0 /\ r = S754_zero sx)
        \/ exists mr er,
             Zpos mr * 2 ^ (er - E) = n
             /\ (er = E \/ (er = E + 1 /\ n = 2 ^ 53))
             /\ r = if er <=? 971 then S754_finite sx mr er
                    else S754_infinity sx).
Proof.
  intros E r HeE.
  destruct (bra_shape sx m e HeE) as (n & (Hn & Hup & Hdn & Hq53 & Hq52) & Hr).
  fold E in Hn, Hup, Hdn, Hq53, Hq52, Hr. fold r in Hr.
  set (q := Zpos m / 2 ^ (E - e)) in *.
  pose proof (Z.pow_pos_nonneg 2 (E - e) ltac:(lia) ltac:(lia)) as Hk.
  destruct (Z.le_gt_cases (2 * Zpos m) ((2 * q + 1) * 2 ^ (E - e)))
    as [Hle|Hgt].
  - exists n. split; [nia|exact Hr].
  - assert (HE : -1074 <= E) by (unfold E, fexp64; lia).
    assert (Hq0 : 0 <= q) by (unfold q; apply Z.div_pos; lia).
    assert (Hlt : e < E).
    { destruct (Z.eq_dec E e) as [Heq|]; [exfalso|lia].
      unfold q in Hgt. rewrite Heq, Z.sub_diag in Hgt.
      change (2 ^ 0) with 1 in Hgt. rewrite Z.div_1_r in Hgt. lia. }
    destruct (shr_fexp_sticky m e Hlt) as (mrs & Hshr & Hm & Hrb & Hsb).
    fold E in Hshr, Hm, Hrb, Hsb. fold q in Hm.
    pose proof (bit_below_cut (Zpos m) (E - e) ltac:(lia) ltac:(lia)) as Hbit.
    cbv zeta in Hbit. fold q in Hbit. rewrite <- Hrb in Hbit.
    assert (Hr1 : shr_r mrs = true).
    { destruct (shr_r mrs); [reflexivity|lia]. }
    assert (Hs1 : shr_s mrs = true).
    { destruct (shr_s mrs) eqn:Hs; [reflexivity|exfalso].
      destruct (Hsb eq_refl) as (c & Hc).
      rewrite Hr1 in Hrb. symmetry in Hrb.
      apply Z.testbit_true in Hrb; [|lia].
      pose proof (Z.pow_pos_nonneg 2 (E - e - 1) ltac:(lia) ltac:(lia)) as HP.
      assert (H2k : 2 ^ (E - e) = 2 * 2 ^ (E - e - 1)).
      { rewrite <- Z.pow_succ_r by lia. f_equal. lia. }
      set (P := 2 ^ (E - e - 1)) in *.
      assert (Hc0 : Zpos m / P = c).
      { rewrite Hc, Z.mul_comm. apply Z.div_mul. lia. }
      rewrite Hc0 in Hrb.
      pose proof (Z.div_mod c 2 ltac:(lia)) as D. rewrite Hrb in D.
      assert (Hq : q = c / 2).
      { unfold q. rewrite H2k, (Z.mul_comm 2 P), <- Z.div_div by lia.
        rewrite Hc0. reflexivity. }
      rewrite H2k in Hgt. rewrite Hq, Hc in Hgt. nia. }
    exists (q + 1). split.
    + pose proof (Z.mul_succ_div_gt (Zpos m) (2 ^ (E - e)) Hk) as Hd.
      fold q in Hd. nia.
    + unfold r, binary_round_aux. rewrite Hshr.
      assert (Hrne : round_nearest_even (shr_m mrs) (loc_of_shr_record mrs)
                     = q + 1).
      { destruct mrs as [mm rr ss]. cbn in Hm, Hr1, Hs1 |- *.
        subst rr ss. cbn. rewrite Hm. reflexivity. }
      rewrite Hrne. apply second_cut; [exact HE|lia].
Qed.

Lemma bra_rounded (m : positive) (e : Z) :
  e <= fexp64 (Zpos (digits2_pos m) + e) ->
  rounded (binary_round_aux prec emax false (Zpos m) e loc_Exact).
Proof.
  intros He. destruct (bra_shape false m e He) as (n & _ & Hr).
  destruct Hr as [[_ ->]|(mr & er & _ & _ & ->)]; [exact I|].
  destruct (er <=? 971); exact I.
Qed.

(** A number below half the least positive double rounds to zero. *)
Lemma bra_zero (m : positive) (e : Z) :
  -2148 <= e -> e <= fexp64 (Zpos (digits2_pos m) + e) ->
  2 * sval m e < 2 ^ 1074 ->
  binary_round_aux prec emax false (Zpos m) e loc_Exact = S754_zero false.
Proof.
  intros He HeE Hv.
  destruct (bra_shape false m e HeE)
    as (n & (Hn & Hup & Hdn & Hq53 & Hq52) & Hr).
  set (E := fexp64 (Zpos (digits2_pos m) + e)) in *.
  set (q := Zpos m / 2 ^ (E - e)) in *.
  assert (HE : -1074 <= E) by (unfold E, fexp64; lia).
  pose proof (Z.pow_pos_nonneg 2 (e + 2148) ltac:(lia) ltac:(lia)) as HA.
  pose proof (Z.pow_pos_nonneg 2 (E - e) ltac:(lia) ltac:(lia)) as Hk.
  assert (Hlow : e + 2148 <= 1074).
  { destruct (Z.le_gt_cases (e + 2148) 1074) as [|Hgt]; [assumption|exfalso].
    assert (2 ^ 1074 <= 2 ^ (e + 2148)) by (apply Z.pow_le_mono_r; lia).
    unfold sval in Hv. pose proof (Pos2Z.is_pos m). nia. }
  assert (Hsplit : 2 ^ 1074 = 2 ^ (-1074 - e) * 2 ^ (e + 2148))
    by (rewrite <- Z.pow_add_r by lia; f_equal; lia).
  assert (Hmono : 2 ^ (-1074 - e) <= 2 ^ (E - e))
    by (apply Z.pow_le_mono_r; lia).
  assert (Hm : 2 * Zpos m < 2 ^ (E - e)).
  { unfold sval in Hv. rewrite Hsplit in Hv.
    set (A := 2 ^ (e + 2148)) in *. set (B := 2 ^ (-1074 - e)) in *. nia. }
  assert (Hq : q = 0).
  { unfold q. apply Z.div_small. lia. }
  assert (Hn0 : n = 0).
  { rewrite Hq in Hdn. apply Hdn. lia. }
  destruct Hr as [[_ Hr]|(mr & er & Hmr & Her & _)]; [exact Hr|exfalso].
  pose proof (Pos2Z.is_pos mr).
  assert (0 < 2 ^ (er - E)) by (apply Z.pow_pos_nonneg; lia). nia.
Qed.

(** Rounding keeps the order of two positive numbers. *)
Lemma bra_mono (m1 : positive) (e1 : Z) (m2 : positive) (e2 : Z) :
  -2148 <= e1 -> e1 <= fexp64 (Zpos (digits2_pos m1) + e1) ->
  -2148 <= e2 -> e2 <= fexp64 (Zpos (digits2_pos m2) + e2) ->
  sval m1 e1 < sval m2 e2 ->
  let r1 := binary_round_aux prec emax false (Zpos m1) e1 loc_Exact in
  let r2 := binary_round_aux prec emax false (Zpos m2) e2 loc_Exact in
  valid_binary r1 = true -> valid_binary r2 = true ->
  SFleb r1 r2 = true.
Proof.
  intros He1 HE1 He2 HE2 Hlt r1 r2 V1 V2.
  pose proof (bra_rounded m1 e1 HE1) as R1. fold r1 in R1.
  destruct (bra_nearest false m2 e2 HE2) as (n & Hn & Hr).
  fold r2 in Hr.
  set (E := fexp64 (Zpos (digits2_pos m2) + e2)) in *.
  assert (HE : -1074 <= E) by (unfold E, fexp64; lia).
  pose proof (Z.pow_pos_nonneg 2 (e2 + 2148) ltac:(lia) ltac:(lia)) as HA.
  assert (HS : 2 ^ (E + 2148) = 2 ^ (E - e2) * 2 ^ (e2 + 2148))
    by (rewrite <- Z.pow_add_r by lia; f_equal; lia).
  assert (Hn' : 2 * sval m2 e2 <= (2 * n + 1) * 2 ^ (E + 2148)).
  { unfold sval. rewrite HS. set (A := 2 ^ (e2 + 2148)) in *. nia. }
  destruct Hr as [[Hn0 Hr]|(mr & er & Hmr & Her & Hr)].
  - (* the greater number rounds to zero: so does the lesser *)
    assert (Hz : r1 = S754_zero false).
    { apply bra_zero; try assumption.
      subst n. change (2 * 0 + 1) with 1 in Hn'. rewrite Z.mul_1_l in Hn'.
      destruct (bra_shape false m2 e2 HE2)
        as (n' & (Hq & Hup & Hdn & Hq53 & Hq52) & _).
      fold E in Hq, Hup, Hdn, Hq53, Hq52.
      assert (Hq0 : Zpos m2 / 2 ^ (E - e2) = 0).
      { apply Z.div_small.
        pose proof (Z.pow_pos_nonneg 2 (E - e2) ltac:(lia) ltac:(lia)).
        change (2 * 0 + 1) with 1 in Hn. lia. }
      assert (HEz : E = -1074).
      { destruct (Z.eq_dec E (-1074)) as [|Hne]; [assumption|exfalso].
        specialize (Hq52 ltac:(lia)). rewrite Hq0 in Hq52.
        change (2 ^ 52) with 4503599627370496 in Hq52. lia. }
      rewrite HEz in Hn'. change (-1074 + 2148) with 1074 in Hn'. lia. }
    rewrite Hz, Hr. reflexivity.
  - destruct (er <=? 971) eqn:Hfin.
    + (* the greater number rounds to a double *)
      rewrite Hr in V2 |- *.
      assert (Hg : 2 * sval m1 e1
                   < (2 * Zpos mr + 1) * 2 ^ (er + 2148)).
      { assert (Hb : (2 * n + 1) * 2 ^ (E + 2148)
                     <= (2 * Zpos mr + 1) * 2 ^ (er + 2148)).
        { pose proof (Z.pow_pos_nonneg 2 (E + 2148) ltac:(lia) ltac:(lia))
            as HB.
          destruct Her as [->|[-> _]].
          - rewrite Z.sub_diag in Hmr. change (2 ^ 0) with 1 in Hmr.
            rewrite <- Hmr. lia.
          - replace (E + 1 - E) with 1 in Hmr by lia.
            change (2 ^ 1) with 2 in Hmr.
            replace (E + 1 + 2148) with (Z.succ (E + 2148)) by lia.
            rewrite Z.pow_succ_r by lia.
            set (B := 2 ^ (E + 2148)) in *. nia. }
        lia. }
      destruct (bra_le false m1 e1 mr er He1 HE1 V2 Hg)
        as [Hz|(m' & e' & Hf & Hv)]; fold r1 in Hz || fold r1 in Hf.
      * rewrite Hz. reflexivity.
      * rewrite Hf in V1 |- *. apply canon_leb; assumption.
    + rewrite Hr. destruct r1 as [[|]|[|]| |[|] ? ?]; try contradiction;
        reflexivity.
Qed.

(** The values of two valid doubles are equal only if the doubles are. *)
Lemma sval_inj (m1 m2 : positive) (e1 e2 : Z) :
  valid_binary (S754_finite false m1 e1) = true ->
  valid_binary (S754_finite false m2 e2) = true ->
  sval m1 e1 = sval m2 e2 -> m1 = m2 /\ e1 = e2.
Proof.
  intros V1 V2 H.
  pose proof (canon_leb m1 m2 e1 e2 V1 V2 ltac:(lia)) as H12.
  pose proof (canon_leb m2 m1 e2 e1 V2 V1 ltac:(lia)) as H21.
  unfold SFleb in H12, H21.
  rewrite (SFcompare_antisym (S754_finite false m1 e1)) in H21.
  destruct (SFcompare (S754_finite false m1 e1) (S754_finite false m2 e2))
    as [[| |]|] eqn:Hc; try discriminate.
  destruct (SFcompare_Eq _ _ Hc) as [Heq|(s & s' & Heq & _)];
    [|discriminate Heq].
  injection Heq as -> ->. split; reflexivity.
Qed.

Lemma SFleb_refl (x : spec_float) : x <> S754_nan -> SFleb x x = true.
Proof.
  intros H. unfold SFleb. rewrite SFcompare_refl by exact H. reflexivity.
Qed.

(** Multiplying by a positive normal double keeps the order of two
    non-negative doubles. *)
Lemma SFmul_mono (x y : spec_float) (mc : positive) (ec : Z) :
  valid_binary x = true -> valid_binary y = true ->
  nonneg x -> nonneg y ->
  valid_binary (S754_finite false mc ec) = true -> 2 ^ 52 <= Zpos mc ->
  valid_binary (SF64mul x (S754_finite false mc ec)) = true ->
  valid_binary (SF64mul y (S754_finite false mc ec)) = true ->
  SFleb x y = true ->
  SFleb (SF64mul x (S754_finite false mc ec))
        (SF64mul y (S754_finite false mc ec)) = true
  /\ nonneg (SF64mul y (S754_finite false mc ec)).
Proof.
  intros Vx Vy Nx Ny Vc Hn Vrx Vry Hxy.
  pose proof (valid_canonical _ _ _ Vc) as (Rc & _ & _).
  assert (Hal : forall m e, -1074 <= e ->
            -2148 <= e + ec
            /\ e + ec <= fexp64 (Zpos (digits2_pos (m * mc)) + (e + ec))).
  { intros m e He. split; [lia|].
    pose proof (digits_upper (m * mc)) as Du.
    pose proof (Pos2Z.is_pos m) as Pm.
    assert (Hd : 53 <= Zpos (digits2_pos (m * mc))).
    { destruct (Z.le_gt_cases 53 (Zpos (digits2_pos (m * mc)))) as [|Hlt];
        [assumption|].
      assert (H52 : 2 ^ Zpos (digits2_pos (m * mc)) <= 2 ^ 52)
        by (apply Z.pow_le_mono_r; lia).
      set (D := 2 ^ Zpos (digits2_pos (m * mc))) in *.
      set (P := 2 ^ 52) in *.
      rewrite Pos2Z.inj_mul in Du. nia. }
    unfold fexp64. lia. }
  assert (Hpos : forall m e, -1074 <= e ->
            nonneg (binary_round_aux prec emax false (Zpos (m * mc))
                                     (e + ec) loc_Exact)).
  { intros m e He. destruct (Hal m e He) as [_ H2].
    pose proof (bra_rounded (m * mc) (e + ec) H2) as R.
    destruct (binary_round_aux _ _ _ _ _ _) as [[|]|[|]| |[|] ? ?];
      try contradiction; exact I. }
  destruct x as [sx|[|]| |[|] mx ex]; try contradiction;
    destruct y as [sy|[|]| |[|] my ey]; try contradiction;
    try discriminate Hxy; cbn [SF64mul SFmul xorb] in *.
  - split; [reflexivity|exact I].
  - split; [reflexivity|exact I].
  - pose proof (valid_canonical _ _ _ Vy) as (Ry & _ & _).
    split; [|apply Hpos; lia].
    pose proof (Hpos my ey ltac:(lia)) as N.
    destruct (binary_round_aux _ _ _ _ _ _) as [[|]|[|]| |[|] ? ?];
      try contradiction; destruct sx; reflexivity.
  - split; [reflexivity|exact I].
  - pose proof (valid_canonical _ _ _ Vx) as (Rx & _ & _).
    split; [|exact I].
    pose proof (Hpos mx ex ltac:(lia)) as N.
    destruct (binary_round_aux _ _ _ _ _ _) as [[|]|[|]| |[|] ? ?];
      try contradiction; reflexivity.
  - pose proof (valid_canonical _ _ _ Vx) as (Rx & _ & _).
    pose proof (valid_canonical _ _ _ Vy) as (Ry & _ & _).
    split; [|apply Hpos; lia].
    pose proof (leb_sval _ _ _ _ Vx Vy Hxy) as Hle.
    destruct (Z.eq_dec (sval mx ex) (sval my ey)) as [Heq|Hne].
    + destruct (sval_inj _ _ _ _ Vx Vy Heq) as [-> ->].
      apply SFleb_refl. pose proof (Hpos my ey ltac:(lia)) as N.
      intros Hnan. rewrite Hnan in N. exact N.
    + destruct (Hal mx ex ltac:(lia)) as [A1 A2].
      destruct (Hal my ey ltac:(lia)) as [B1 B2].
      apply bra_mono; try assumption.
      unfold sval in Hle, Hne |- *. rewrite !Pos2Z.inj_mul.
      assert (HX : 2 ^ (ex + 2148) = 2 ^ (ex + 1074) * 2 ^ 1074)
        by (rewrite <- Z.pow_add_r by lia; f_equal; lia).
      assert (HY : 2 ^ (ey + 2148) = 2 ^ (ey + 1074) * 2 ^ 1074)
        by (rewrite <- Z.pow_add_r by lia; f_equal; lia).
      assert (HXc : 2 ^ (ex + ec + 2148)
                    = 2 ^ (ex + 1074) * 2 ^ (ec + 1074))
        by (rewrite <- Z.pow_add_r by lia; f_equal; lia).
      assert (HYc : 2 ^ (ey + ec + 2148)
                    = 2 ^ (ey + 1074) * 2 ^ (ec + 1074))
        by (rewrite <- Z.pow_add_r by lia; f_equal; lia).
      rewrite HX, HY in Hle, Hne. rewrite HXc, HYc.
      assert (H0 : 0 < 2 ^ 1074) by (apply Z.pow_pos_nonneg; lia).
      assert (Hc : 0 < 2 ^ (ec + 1074)) by (apply Z.pow_pos_nonneg; lia).
      set (Z0 := 2 ^ 1074) in *. set (C := 2 ^ (ec + 1074)) in *.
      set (X := 2 ^ (ex + 1074)) in *. set (Y := 2 ^ (ey + 1074)) in *.
      assert (Hs : Zpos mx * X < Zpos my * Y) by nia.
      pose proof (Pos2Z.is_pos mc) as Pc. nia.
Qed.

End Nearest.

(** The turn of the cube follows the accumulator: it is never negative and
    never goes back. *)
Lemma turn_monotone (n : nat) :
  (0 <=? accumulated n * 0.3)%float = true
  /\ (accumulated n * 0.3 <=? accumulated (S n) * 0.3)%float = true.
Proof.
  pose proof (accumulate_monotone n) as [Hle Nn]. cbv beta in Hle, Nn.
  pose proof (accumulate_monotone (S n)) as [_ Ns]. cbv beta in Ns.
  fold (accumulated n) in Hle, Nn. fold (accumulated (S n)) in Hle, Ns.
  assert (Vc : valid_binary (S754_finite false 5404319552844595 (-54)) = true)
    by reflexivity.
  assert (Hn : (2 ^ 52 <= Zpos 5404319552844595)%Z)
    by (vm_compute; discriminate).
  pose proof (Prim2SF_valid (accumulated n * 0.3)) as Va.
  pose proof (Prim2SF_valid (accumulated (S n) * 0.3)) as Vb.
  rewrite mul_spec, SF_low in Va, Vb.
  rewrite leb_spec in Hle.
  destruct (SFmul_mono _ _ _ _ (Prim2SF_valid _) (Prim2SF_valid _)
              Nn Ns Vc Hn Va Vb Hle) as [Hm _].
  assert (Hxx : SFleb (Prim2SF (accumulated n)) (Prim2SF (accumulated n))
                = true).
  { apply SFleb_refl. intros H. rewrite H in Nn. exact Nn. }
  destruct (SFmul_mono _ _ _ _ (Prim2SF_valid _) (Prim2SF_valid _)
              Nn Nn Vc Hn Va Va Hxx) as [_ Hp].
  split.
  - apply nonneg_leb. rewrite mul_spec, SF_low. exact Hp.
  - rewrite leb_spec, !mul_spec, SF_low. exact Hm.
Qed.

Section Turn.
Context {num : Type} `{!JSNumber num} `{!ThreeTypes num} `{!ThreeJS num}.
Local Open Scope js_scope.

Lemma cube_turn_run (w : Window) (n : nat) :
  lit 0 * lit 0.3 = lit 0 ->
  vy <$> cube_rotation (run w n) = Some (time (run w n) * lit 0.3).
Proof.
  intros H0. destruct n as [|n].
  - cbn. rewrite H0. reflexivity.
  - rewrite cube_rotation_run. reflexivity.
Qed.

End Turn.

(** X12.  The cube never turns back.  Its rotation about the vertical axis
    ([cube.rotation.y]) is never negative and after every invocation of the
    frame updater it is at least what it was before: in binary64 for every
    frame, roundings included, and in exact arithmetic, where it grows at
    every frame. *)
Theorem cube_never_turns_back :
  (forall (sin : float -> float) (T : ThreeTypes float)
          (L : @ThreeJS float (binary64 sin) T) (w : Window) (n : nat),
      exists a b : float,
        vy <$> cube_rotation (@run float (binary64 sin) T L w n) = Some a
        /\ vy <$> cube_rotation (@run float (binary64 sin) T L w (S n))
           = Some b
        /\ (0 <=? a)%float = true /\ (a <=? b)%float = true)
  /\ (forall (T : ThreeTypes R) (L : @ThreeJS R exact T) (w : Window)
             (n : nat),
        exists a b : R,
          vy <$> cube_rotation (@run R exact T L w n) = Some a
          /\ vy <$> cube_rotation (@run R exact T L w (S n)) = Some b
          /\ (0 <= a < b)%R).
Proof.
  split.
  - intros sin T L w n. eexists. eexists.
    split; [apply (@cube_turn_run float (binary64 sin) T L); reflexivity|].
    split; [apply (@cube_turn_run float (binary64 sin) T L); reflexivity|].
    rewrite !binary64_time. apply turn_monotone.
  - intros T L w n. eexists. eexists.
    split; [apply (proj1 (@exact_cube_rotation T L w n))|].
    split; [apply (proj1 (@exact_cube_rotation T L w (S n)))|].
    rewrite S_INR. pose proof (pos_INR n). unfold Q2R. cbn. lra.
Qed.

(** ** The limits of the controls *)

(** X13.  The limits the script gives the orbit controls leave room and
    keep the camera above the floor.  The polar angle may range over a
    non-empty interval that starts above 0 and ends below a right angle, so
    that the camera stays above the horizontal plane through the target;
    the least distance is below the greatest; and the camera starts, at
    (8, 5, 10) with the target at (0, 2, 0), at a distance from the target
    that is within the two. *)
Theorem controls_limits :
  (forall (sin : float -> float) (T : ThreeTypes float)
          (L : @ThreeJS float (binary64 sin) T) (w : Window),
      let c := controls (@build float (binary64 sin) T L w) in
      (0 <? minPolarAngle c)%float = true
      /\ (minPolarAngle c <? maxPolarAngle c)%float = true
      /\ (maxPolarAngle c <? 3.141592653589793 / 2)%float = true
      /\ (minDistance c <? maxDistance c)%float = true)
  /\ (forall (T : ThreeTypes R) (L : @ThreeJS R exact T) (w : Window),
        let s := @build R exact T L w in
        let c := controls s in
        let p := camera_position (camera s) in
        let d2 := ((vx p - vx (target c)) * (vx p - vx (target c))
                   + (vy p - vy (target c)) * (vy p - vy (target c))
                   + (vz p - vz (target c)) * (vz p - vz (target c)))%R in
        (0 < minPolarAngle c < maxPolarAngle c)%R
        /\ (maxPolarAngle c < PI / 2)%R
        /\ (0 < minDistance c < maxDistance c)%R
        /\ (minDistance c * minDistance c <= d2
            <= maxDistance c * maxDistance c)%R).
Proof.
  split.
  - intros sin T L w. repeat split.
  - intros T L w. cbv zeta. cbn. pose proof PI_RGT_0 as HP.
    unfold Q2R. cbn. repeat split; lra.
Qed.

(** ** The first version of the script *)

Section FirstVersion.
Context {num : Type} `{!JSNumber num} `{!ThreeTypes num}
        `{!FirstVariant.ThreeJS}.
Local Open Scope js_scope.

Lemma first_animate_kept (s : FirstVariant.State) :
  let s' := FirstVariant.animate s in
  FirstVariant.scene s' = FirstVariant.scene s
  /\ FirstVariant.size (FirstVariant.renderer s')
     = FirstVariant.size (FirstVariant.renderer s)
  /\ FirstVariant.pixelRatio (FirstVariant.renderer s')
     = FirstVariant.pixelRatio (FirstVariant.renderer s).
Proof.
  unfold FirstVariant.animate.
  destruct (FirstVariant.orbit_update _ _). repeat split.
Qed.

(** X14.  In the first version of the script nothing moves.  At every
    moment of a session the scene is the scene as built, with its five
    objects; the output size of the renderer is the size of the window as
    last reported; and the pixel ratio is the one of the display at
    startup, without a cap. *)
Theorem first_variant_session
  (w0 : Window) (evs : list (Event (num:=num))) :
  let s := FirstVariant.session_state w0 evs in
  let w := last_window w0 evs in
  FirstVariant.scene s = FirstVariant.built_scene
  /\ binding <$> children (FirstVariant.scene s)
     = ["ambientLight"; "pointLight"; "floor"; "backWall"; "cube"]
  /\ FirstVariant.size (FirstVariant.renderer s)
     = (innerWidth w, innerHeight w)
  /\ FirstVariant.pixelRatio (FirstVariant.renderer s)
     = devicePixelRatio w0.
Proof.
  cbv zeta.
  assert (Hinv : FirstVariant.scene (FirstVariant.session_state w0 evs)
                 = FirstVariant.built_scene
                 /\ FirstVariant.size
                      (FirstVariant.renderer
                         (FirstVariant.session_state w0 evs))
                    = (innerWidth (last_window w0 evs),
                       innerHeight (last_window w0 evs))
                 /\ FirstVariant.pixelRatio
                      (FirstVariant.renderer
                         (FirstVariant.session_state w0 evs))
                    = devicePixelRatio w0).
  { unfold FirstVariant.session_state.
    induction evs as [|e evs IH] using rev_ind.
    - unfold FirstVariant.dispatch, FirstVariant.main. cbn [foldl].
      destruct (first_animate_kept (FirstVariant.build w0)) as (-> & -> & ->).
      repeat split.
    - unfold FirstVariant.dispatch in *. rewrite foldl_app. cbn [foldl].
      rewrite last_window_snoc. destruct IH as (IH1 & IH2 & IH3).
      destruct e as [|w]; cbn [FirstVariant.handle].
      + destruct (first_animate_kept
                    (foldl (fun s e => FirstVariant.handle e s)
                           (FirstVariant.main w0) evs)) as (-> & -> & ->).
        repeat split; assumption.
      + repeat split; assumption. }
  destruct Hinv as (H1 & H2 & H3). rewrite H1. repeat split; assumption.
Qed.

End FirstVersion.

(** ** The guarded properties, at concrete sessions *)

(** X4 on the bench, whose controls leave the camera alone: after a frame,
    a resize to 800 by 600 and another frame the aspect ratio is 800/600. *)
Lemma projection_follows_window_witness :
  aspect (camera (bench_session
                    [Refresh; Resized (mkWindow 800 600 1)%float; Refresh]))
  = (800 / 600)%float.
Proof.
  refine (proj1 (@projection_follows_window float (binary64 sin_near_zero)
                   (headless_types float) headless
                   (@desktop float (binary64 sin_near_zero))
                   [Refresh; Resized (mkWindow 800 600 1)%float; Refresh] _)).
  intros ctl cam. reflexivity.
Defined.

(** X8 on a display of pixel ratio 3: the renderer has 2. *)
Lemma pixel_ratio_capped_witness :
  pixelRatio
    (renderer
       (@session_state float (binary64 sin_near_zero) (headless_types float)
                       headless (mkWindow 1024 768 3)%float [Refresh]))
  = 2%float.
Proof.
  apply (proj1 pixel_ratio_capped sin_near_zero (headless_types float)
           headless (mkWindow 1024 768 3)%float [Refresh]).
  reflexivity.
Defined.

(** X9 for a window of 1024 by 0. *)
Lemma window_without_height_witness :
  aspect (camera
            (@resize float (binary64 sin_near_zero) (headless_types float)
                     headless (mkWindow 1024 0 1)%float (bench_session [])))
  = infinity.
Proof.
  apply (@window_without_height sin_near_zero (headless_types float) headless
           1024%float 1%float (bench_session [])).
  reflexivity.
Defined.

(** X10 after the first refresh. *)
Lemma cube_tilt_range_witness :
  exists x : float,
    vx <$> cube_rotation (bench_session [Refresh]) = Some x
    /\ (-0.05 <=? x)%float = true /\ (x <=? 0.05)%float = true.
Proof.
  apply (proj1 cube_tilt_range sin_near_zero (headless_types float) headless
           (@desktop float (binary64 sin_near_zero)) [Refresh]);
    reflexivity.
Defined.

(** X11 on the bench: at the frame of rest the next frame has the same
    time. *)
Lemma animation_comes_to_rest_witness :
  exists N : nat,
    time (bench sin_near_zero (S N)) = time (bench sin_near_zero N).
Proof.
  destruct (proj2 (animation_comes_to_rest sin_near_zero
                     (headless_types float) headless
                     (@desktop float (binary64 sin_near_zero))))
    as [N HN].
  exists N. apply (HN (S N)). lia.
Defined.

(** X6 on the bench: after a frame and a resize to 800 by 600, a second
    resize to 800 by 600 changes nothing. *)
Lemma resize_without_change_witness :
  @resize float (binary64 sin_near_zero) (headless_types float) headless
          (mkWindow 800 600 1)%float
          (bench_session [Refresh; Resized (mkWindow 800 600 1)%float])
  = bench_session [Refresh; Resized (mkWindow 800 600 1)%float].
Proof.
  refine (@resize_without_change float (binary64 sin_near_zero)
            (headless_types float) headless
            (@desktop float (binary64 sin_near_zero))
            [Refresh; Resized (mkWindow 800 600 1)%float] _).
  intros ctl cam. reflexivity.
Defined.
